(** * RAG Spider: crawl orchestration core

    A shallow embedding of the retry policy and error handler
    ([src/utils/errorHandler.js]) and of the URL filter, the crawling
    statistics and the proxy rotation of the web crawler ([webCrawler.js]),
    with the properties of the specification that concern them.

    JavaScript numbers that hold counters, depths, indices and delays are
    integers of [Z]; where the code divides, the quotient is the binary64
    number the runtime computes, kept as the rational it is ([binary64]);
    strings are [string]; a [Map] keyed by strings is a [gmap string _]; a
    [throw] is the [Throw] completion of a small error monad; objects that
    are shared by reference live in an explicit heap. *)

From Stdlib Require Import ZArith QArith Qround Qabs Qpower Lqa.
From Stdlib Require Import String Ascii List Bool Lia.
From stdpp Require Import base option list gmap strings.

Local Open Scope string_scope.
Local Open Scope Z_scope.

(** ** JavaScript values that are thrown, and completions *)

Module ErrorCategory.
Definition NETWORK : string := "network".
Definition PARSING : string := "parsing".
Definition EXTRACTION : string := "extraction".
Definition PROCESSING : string := "processing".
Definition VALIDATION : string := "validation".
Definition TIMEOUT : string := "timeout".
Definition RATE_LIMIT : string := "rate_limit".
Definition MEMORY : string := "memory".
Definition UNKNOWN : string := "unknown".
End ErrorCategory.

Module ErrorSeverity.
Definition LOW : string := "low".
Definition MEDIUM : string := "medium".
Definition HIGH : string := "high".
Definition CRITICAL : string := "critical".
End ErrorSeverity.

(** The values kept in an error's [context] object. *)
Inductive ContextValue : Type :=
  | VString (s : string)
  | VNumber (z : Z).

Module CrawlerError.
(** [class CrawlerError extends Error]: the fields the constructor sets. *)
Record t := mk {
  message : string;
  category : string;
  severity : string;
  context : gmap string ContextValue;
  timestamp : string;
  retryable : bool
}.

Definition retryableCategories : list string :=
  [ErrorCategory.NETWORK; ErrorCategory.TIMEOUT; ErrorCategory.RATE_LIMIT].

(** [Array.prototype.includes] on an array of strings. *)
Definition includes (l : list string) (x : string) : bool :=
  existsb (String.eqb x) l.

(** [isRetryable()] reads [this.category] when it is called. *)
Definition isRetryable (e : t) : bool :=
  includes retryableCategories (category e).

(** [new CrawlerError(message, category, severity, context)]; [now] is
    what [new Date().toISOString()] gives at the time of the call. *)
Definition new (message category severity : string)
    (context : gmap string ContextValue) (now : string) : t :=
  let this := mk message category severity context now false in
  mk message category severity context now (isRetryable this).
End CrawlerError.

(** An [Error] object: a [CrawlerError], or some other [Error] (a
    [TypeError] of the runtime, a failure of a library) with its [name] and
    [message]. *)
Inductive JsError : Type :=
  | PlainError (name message : string)
  | CrawlerErr (e : CrawlerError.t).

(** What a [throw] or a rejected promise carries. JavaScript lets any value
    be thrown: besides an [Error] object, [null] and [undefined]
    ([Promise.reject()] rejects with [undefined]), which have no properties
    at all. Other primitive values are not modelled. *)
Inductive Thrown : Type :=
  | Err (error : JsError)
  | Nullish.

Coercion Err : JsError >-> Thrown.

Definition error_message (error : JsError) : string :=
  match error with
  | PlainError _ m => m
  | CrawlerErr e => CrawlerError.message e
  end.

(** [CrawlerError.fromError(error, category, context)]; there is no
    [ErrorCategory.CRITICAL], so the severity is always medium. *)
Definition fromError (error : JsError) (category : string)
    (context : gmap string ContextValue) (now : string) : CrawlerError.t :=
  CrawlerError.new (error_message error) category ErrorSeverity.MEDIUM context now.

Inductive Completion (A : Type) : Type :=
  | Normal (a : A)
  | Throw (thrown : Thrown).
Arguments Normal {A} a.
Arguments Throw {A} thrown.

(** [error.message] on a caught value: the property of an [Error] object;
    reading a property of [null] or [undefined] throws a [TypeError] (the
    text is V8's). *)
Definition read_message (thrown : Thrown) : Completion string :=
  match thrown with
  | Err error => Normal (error_message error)
  | Nullish =>
      Throw (PlainError "TypeError"
               "Cannot read properties of undefined (reading 'message')")
  end.

#[global] Instance Completion_ret : MRet Completion := fun A a => Normal a.

#[global] Instance Completion_bind : MBind Completion := fun A B k c =>
  match c with
  | Normal a => k a
  | Throw error => Throw error
  end.

(** [try { body } catch (error) { handler }] *)
Definition try_catch {A} (body : Completion A) (handler : Thrown -> Completion A)
    : Completion A :=
  match body with
  | Normal a => Normal a
  | Throw error => handler error
  end.

(** ** Retry policy and error handler (errorHandler.js) *)

Record RetryConfig := {
  maxRetries : Z;
  baseDelay : Z
}.

(** [{ maxRetries: 3, baseDelay: 1000, ...config }]: a key that the caller
    leaves out keeps its default. *)
Definition new_RetryConfig (cfg_maxRetries cfg_baseDelay : option Z) : RetryConfig :=
  {| maxRetries := default 3 cfg_maxRetries;
     baseDelay := default 1000 cfg_baseDelay |}.

Record ErrorStats := {
  totalErrors : Z;
  errorsByCategory : gmap string Z;
  errorsBySeverity : gmap string Z;
  recoveredErrors : Z;
  unrecoverableErrors : Z
}.

Definition new_ErrorStats : ErrorStats :=
  {| totalErrors := 0; errorsByCategory := ∅; errorsBySeverity := ∅;
     recoveredErrors := 0; unrecoverableErrors := 0 |}.

(** The mutable state an operation runs against: the retry policy's
    [attempts] map, the handler's [errorStats], and whatever else the
    operation closes over ([world]). An operation may change all of it (the
    crawler's steps call the same handler again from inside an operation).
    One call is followed on its own: what other page visits do while it
    sleeps is not interleaved. *)
Record Store (W : Type) := mkStore {
  attempts : gmap string Z;
  errorStats : ErrorStats;
  world : W
}.
Arguments mkStore {W}.
Arguments attempts {W}.
Arguments errorStats {W}.
Arguments world {W}.

Definition Operation (W R : Type) : Type := Store W -> Store W * Completion R.

(** What one call of [executeWithRetry] does besides changing the store. *)
Inductive Event : Type :=
  | Invoke
  | Sleep (ms : Z).

(** How often the operation was invoked. *)
Fixpoint invocations (events : list Event) : Z :=
  match events with
  | [] => 0
  | Invoke :: rest => 1 + invocations rest
  | Sleep _ :: rest => invocations rest
  end.

Definition calculateDelay (config : RetryConfig) (attempt : Z) : Z :=
  baseDelay config * attempt.

(** [this.attempts.get(operationId) || 0] *)
Definition attempts_get (m : gmap string Z) (operationId : string) : Z :=
  default 0 (m !! operationId).

(** [error instanceof CrawlerError && error.isRetryable()] *)
Definition error_retryable (error : Thrown) : bool :=
  match error with
  | Err (CrawlerErr e) => CrawlerError.isRetryable e
  | Err (PlainError _ _) | Nullish => false
  end.

Definition shouldRetry (config : RetryConfig) (m : gmap string Z)
    (error : Thrown) (operationId : string) : bool :=
  let attempt := attempts_get m operationId in
  (attempt <? maxRetries config) && error_retryable error.

(** [{ recovered: false, skipped: true, reason: error.message }] *)
Record Sentinel := { recovered : bool; skipped : bool; reason : string }.

Section Execute.
Context {W R : Type}.

Definition attempts_delete (operationId : string) (s : Store W) : Store W :=
  mkStore (delete operationId (attempts s)) (errorStats s) (world s).

Definition attempts_set (operationId : string) (n : Z) (s : Store W) : Store W :=
  mkStore (<[operationId := n]> (attempts s)) (errorStats s) (world s).

(** The [while (true)] loop of [executeWithRetry]; [count] is the local
    variable [attempts], [fuel] bounds the number of iterations. *)
Fixpoint executeWithRetry_loop (fuel : nat) (config : RetryConfig)
    (operation : Operation W R) (operationId : string) (count : Z)
    (s : Store W) : option (Store W * list Event * Completion R) :=
  match fuel with
  | O => None
  | S fuel' =>
    match operation s with
    | (s1, Normal result) =>
        Some (attempts_delete operationId s1, [Invoke], Normal result)
    | (s1, Throw error) =>
        let count' := count + 1 in
        let s2 := attempts_set operationId count' s1 in
        if negb (shouldRetry config (attempts s2) error operationId)
        then Some (s2, [Invoke], Throw error)
        else
          let delay := calculateDelay config count' in
          match executeWithRetry_loop fuel' config operation operationId count' s2 with
          | Some (s3, events, r) => Some (s3, Invoke :: Sleep delay :: events, r)
          | None => None
          end
    end
  end.

Definition executeWithRetry (fuel : nat) (config : RetryConfig)
    (operation : Operation W R) (operationId : string) (s : Store W)
    : option (Store W * list Event * Completion R) :=
  executeWithRetry_loop fuel config operation operationId 0 s.

(** Iterations that always suffice (see [executeWithRetry_returns]). *)
Definition retry_fuel (config : RetryConfig) : nat :=
  S (Z.to_nat (maxRetries config)).

Definition updateErrorStats (error : Thrown) (s : Store W) : Store W :=
  let st := errorStats s in
  let byCategory :=
    match error with
    | Err (CrawlerErr e) =>
        let categoryCount := default 0 (errorsByCategory st !! CrawlerError.category e) in
        <[CrawlerError.category e := categoryCount + 1]> (errorsByCategory st)
    | Err (PlainError _ _) | Nullish => errorsByCategory st
    end in
  mkStore (attempts s)
    {| totalErrors := totalErrors st + 1;
       errorsByCategory := byCategory;
       errorsBySeverity := errorsBySeverity st;
       recoveredErrors := recoveredErrors st;
       unrecoverableErrors := unrecoverableErrors st |}
    (world s).

Inductive HandlerResult : Type :=
  | Value (result : R)
  | Skip (sentinel : Sentinel).

(** [executeWithErrorHandling(operation, operationId, context)]; the
    [context] argument is not read. The [catch] block updates the tally and
    then reads [error.message] (for [console.warn], whose output is left
    out, and for the sentinel); when that read throws, the [TypeError]
    leaves the handler. *)
Definition executeWithErrorHandling (fuel : nat) (config : RetryConfig)
    (operation : Operation W R) (operationId : string) (s : Store W)
    : option (Store W * list Event * Completion HandlerResult) :=
  match executeWithRetry fuel config operation operationId s with
  | None => None
  | Some (s1, events, Normal result) => Some (s1, events, Normal (Value result))
  | Some (s1, events, Throw error) =>
      let s2 := updateErrorStats error s1 in
      match read_message error with
      | Normal message =>
          Some (s2, events,
                Normal (Skip {| recovered := false; skipped := true;
                                reason := message |}))
      | Throw typeError => Some (s2, events, Throw typeError)
      end
  end.
End Execute.

Arguments HandlerResult : clear implicits.

(** [String.prototype.includes] *)
Fixpoint string_includes (s sub : string) : bool :=
  String.prefix sub s ||
  match s with
  | EmptyString => false
  | String _ rest => string_includes rest sub
  end.

Section Categorize.
(** [String.prototype.toLowerCase] follows the Unicode case mapping of the
    runtime; what [categorizeError] returns is established for any such
    function. [ascii_toLowerCase] below is the mapping on ASCII text. *)
Variable toLowerCase : string -> string.

Definition categorizeError (error : JsError) : string :=
  let message := toLowerCase (error_message error) in
  if string_includes message "network" || string_includes message "econnreset"
     || string_includes message "enotfound"
  then ErrorCategory.NETWORK
  else if string_includes message "timeout" || string_includes message "etimedout"
  then ErrorCategory.TIMEOUT
  else if string_includes message "rate limit"
          || string_includes message "too many requests"
  then ErrorCategory.RATE_LIMIT
  else ErrorCategory.UNKNOWN.
End Categorize.

Definition ascii_lower (c : ascii) : ascii :=
  let n := nat_of_ascii c in
  if ((65 <=? n) && (n <=? 90))%nat then ascii_of_nat (n + 32) else c.

Fixpoint ascii_toLowerCase (s : string) : string :=
  match s with
  | EmptyString => EmptyString
  | String c rest => String (ascii_lower c) (ascii_toLowerCase rest)
  end.

(** ** Numbers

    A JavaScript number is a binary64 floating-point number. Every finite
    one is a rational [m * 2 ^ e] with [|m| < 2 ^ 53] and [e >= -1074], and
    an arithmetic operation returns the exact result rounded to the nearest
    such number, a tie going to the even [m]. Integers up to [2 ^ 53] in
    magnitude are held exactly. Results beyond the largest finite number
    (which the runtime turns into [Infinity]) are outside the model. *)

(** The integer nearest to [q], a tie going to the even one. *)
Definition round_half_even (q : Q) : Z :=
  let f := Qfloor q in
  match (q - inject_Z f ?= 1 # 2)%Q with
  | Lt => f
  | Gt => f + 1
  | Eq => if Z.even f then f else f + 1
  end.

Definition pow2 (e : Z) : Q := (2 ^ e)%Q.

(** The integer [k] with [2 ^ k <= q < 2 ^ (k + 1)], for a positive [q]:
    the difference of the bit lengths of numerator and denominator, or one
    less. *)
Definition floor_log2 (q : Q) : Z :=
  let k := Z.log2 (Qnum q) - Z.log2 (Zpos (Qden q)) in
  if Qle_bool (pow2 k) q then k else k - 1.

(** The binary64 number nearest to the rational [x]: [x] is rounded to a
    multiple of [2 ^ e], where [e] leaves 53 significant bits, and is
    [-1074] for the subnormal numbers. *)
Definition binary64 (x : Q) : Q :=
  let x := Qred x in
  if Qeq_bool x 0 then 0%Q
  else
    let e := Z.max (floor_log2 (Qabs x) - 52) (-1074) in
    (inject_Z (round_half_even (x / pow2 e)) * pow2 e)%Q.

(** ** Crawling statistics (webCrawler.js) *)

Module CrawlingStats.
Record entry := { message : string; url : string; timestamp : string }.

(** Dates are milliseconds since the epoch; the counters are only ever
    incremented from 0, so they are integers. *)
Record t := mk {
  startTime : Z;
  endTime : option Z;
  totalRequests : Z;
  successfulRequests : Z;
  failedRequests : Z;
  filteredUrls : Z;
  depthExceededUrls : Z;
  processedPages : Z;
  extractedChunks : Z;
  totalTokens : Z;
  errors : list entry;
  warnings : list entry
}.

Definition new (now : Z) : t :=
  mk now None 0 0 0 0 0 0 0 0 [] [].

(** [Math.round] of a number, given as the rational it is: the nearest
    integer, a tie going up. *)
Definition Math_round (q : Q) : Z := Qfloor (q + (1 # 2)).

(** [Math.round((successfulRequests / totalRequests) * 100)]: the quotient
    and the product are each rounded to binary64. *)
Definition getSuccessRate (this : t) : Z :=
  if totalRequests this =? 0 then 0
  else Math_round
         (binary64
            (binary64 (inject_Z (successfulRequests this) / inject_Z (totalRequests this))
             * inject_Z 100)).

Definition addError (error_message : string) (url : string) (now : string)
    (this : t) : t :=
  mk (startTime this) (endTime this) (totalRequests this)
     (successfulRequests this) (failedRequests this) (filteredUrls this)
     (depthExceededUrls this) (processedPages this) (extractedChunks this)
     (totalTokens this)
     ((errors this ++ [{| message := error_message; url := url; timestamp := now |}])%list)
     (warnings this).

Definition incr_failedRequests (this : t) : t :=
  mk (startTime this) (endTime this) (totalRequests this)
     (successfulRequests this) (failedRequests this + 1) (filteredUrls this)
     (depthExceededUrls this) (processedPages this) (extractedChunks this)
     (totalTokens this) (errors this) (warnings this).
End CrawlingStats.

(** ** URL objects of the runtime

    [new URL(s)], the [hash] setter and [toString()] are the runtime's
    implementation of the URL Standard. A parsed URL is kept as its
    components in serialised form; the serialiser and the setter follow the
    standard, and the parser is a parameter of the filter. *)

Module URL.
Record t := mk {
  scheme : string;               (* lower case, without the colon *)
  authority : option string;     (* credentials, host and port, when there is a host *)
  path : string;
  query : option string;         (* without the question mark *)
  fragment : option string       (* without the hash sign *)
}.

Definition without_fragment (u : t) : string :=
  scheme u +:+ ":" +:+
  match authority u with Some a => "//" +:+ a | None => "" end +:+
  path u +:+
  match query u with Some q => "?" +:+ q | None => "" end.

Definition hash (u : t) : string :=
  match fragment u with Some f => "#" +:+ f | None => "" end.

(** [toString()], which is [href]. *)
Definition toString (u : t) : string := without_fragment u +:+ hash u.

(** [u.hash = ''] sets the fragment to null. *)
Definition set_hash_empty (u : t) : t :=
  mk (scheme u) (authority u) (path u) (query u) None.
End URL.

(** ** URL filter (webCrawler.js) *)

Module FilterDecision.
Record t := mk { allowed : bool; reason : string }.
End FilterDecision.

Record UrlFilter := {
  includeGlobs : list string;
  excludeGlobs : list string;
  maxDepth : Z;
  baseUrls : gset string
}.

(** [new UrlFilter(options)]: [options.x || d] takes [d] when [x] is
    missing, and for the depth also when it is 0. *)
Definition new_UrlFilter (includeUrlGlobs excludeUrlGlobs : option (list string))
    (maxCrawlDepth : option Z) : UrlFilter :=
  {| includeGlobs := default ["**"] includeUrlGlobs;
     excludeGlobs := default [] excludeUrlGlobs;
     maxDepth := match maxCrawlDepth with
                 | Some d => if d =? 0 then 3 else d
                 | None => 3
                 end;
     baseUrls := ∅ |}.

(** [array.some(callback)] with a callback that may throw: the elements are
    tried in order, up to the first one that gives true or throws. *)
Fixpoint Array_some {A} (callback : A -> Completion bool) (l : list A)
    : Completion bool :=
  match l with
  | [] => Normal false
  | x :: rest =>
      match callback x with
      | Normal true => Normal true
      | Normal false => Array_some callback rest
      | Throw error => Throw error
      end
  end.

Section Filter.
(** [minimatch(path, pattern)] of the minimatch library: true or false,
    or an exception (it rejects a pattern beyond its length limit). *)
Variable minimatch : string -> string -> Completion bool.
(** The URL parser of the runtime; [None] when [new URL(s)] throws. *)
Variable URL_parse : string -> option URL.t.

Definition new_URL (url : string) : Completion URL.t :=
  match URL_parse url with
  | Some parsed => Normal parsed
  | None => Throw (PlainError "TypeError" "Invalid URL")
  end.

(** "[url] matches at least one glob of the list":
    [globs.some(pattern => minimatch(url, pattern))] is true. *)
Definition matches_any (url : string) (globs : list string) : Prop :=
  Array_some (fun pattern => minimatch url pattern) globs = Normal true.

Definition matchesIncludePatterns (this : UrlFilter) (url : string) : Completion bool :=
  try_catch (Array_some (fun pattern => minimatch url pattern) (includeGlobs this))
            (fun _ => Normal false).

Definition matchesExcludePatterns (this : UrlFilter) (url : string) : Completion bool :=
  try_catch (Array_some (fun pattern => minimatch url pattern) (excludeGlobs this))
            (fun _ => Normal false).

(** [shouldCrawl(url, currentDepth)]; a caller that leaves the depth out
    passes 0. *)
Definition shouldCrawl (this : UrlFilter) (url : string) (currentDepth : Z)
    : Completion FilterDecision.t :=
  if maxDepth this <=? currentDepth
  then Normal (FilterDecision.mk false "depth_exceeded")
  else
    excluded ← matchesExcludePatterns this url;
    if (excluded : bool)
    then Normal (FilterDecision.mk false "excluded_pattern")
    else
      included ← matchesIncludePatterns this url;
      if negb included
      then Normal (FilterDecision.mk false "not_included")
      else Normal (FilterDecision.mk true "allowed").

Definition normalizeUrl (url : string) : Completion string :=
  try_catch
    (parsed ← new_URL url;
     let parsed := URL.set_hash_empty parsed in
     Normal (URL.toString parsed))
    (fun _ => Normal url).

(** The frontier filter as [discoverLinks] applies it to a link. *)
Definition frontier_filter (this : UrlFilter) (url : string) (depth : Z)
    : Completion FilterDecision.t :=
  url' ← normalizeUrl url;
  shouldCrawl this url' depth.
End Filter.

(** ** The web crawler's recovery actions (webCrawler.js) *)

(** A number that may have become [NaN] (the remainder by 0). *)
Inductive Num : Type :=
  | Int (z : Z)
  | NaN.

(** [(a + 1) % n] for an integer [n]; the remainder has the sign of the
    dividend. *)
Definition succ_rem (a : Num) (n : Z) : Num :=
  match a with
  | Int z => if n =? 0 then NaN else Int (Z.rem (z + 1) n)
  | NaN => NaN
  end.

(** [array[i]]: a string, or [undefined] (here [None]) out of range. *)
Definition Array_get (l : list (option string)) (i : Num) : option string :=
  match i with
  | Int z => if z <? 0 then None else mjoin (l !! Z.to_nat z)
  | NaN => None
  end.

(** Proxy configuration objects are shared by reference: they live in a
    heap, and the crawler's options and the browser-layer crawler each hold
    an address. *)
Definition loc := positive.

Record ProxyConfiguration := {
  proxyUrls : option (list (option string))   (* [None]: no such property *)
}.

Record PlaywrightCrawler := {
  crawler_proxyConfiguration : option loc
}.

Record WebCrawler := mkWebCrawler {
  options_proxyConfiguration : option loc;     (* [this.options.proxyConfiguration] *)
  stats : CrawlingStats.t;
  urlFilter : UrlFilter;
  crawler : option PlaywrightCrawler;
  currentProxyIndex : Num;
  proxyRotationEnabled : bool;
  heap : gmap loc ProxyConfiguration
}.

(** [new WebCrawler(options)], for the options the filter and the recovery
    actions read; [{ ...DEFAULT_CRAWLER_OPTIONS, ...options }] gives a
    missing [maxCrawlDepth] its default 3 before the filter sees it. *)
Definition new_WebCrawler (includeUrlGlobs excludeUrlGlobs : option (list string))
    (maxCrawlDepth : option Z) (proxyConfiguration : option loc)
    (h : gmap loc ProxyConfiguration) (now : Z) : WebCrawler :=
  {| options_proxyConfiguration := proxyConfiguration;
     stats := CrawlingStats.new now;
     urlFilter := new_UrlFilter includeUrlGlobs excludeUrlGlobs
                    (Some (default 3 maxCrawlDepth));
     crawler := None;
     currentProxyIndex := Int 0;
     proxyRotationEnabled := bool_decide (is_Some proxyConfiguration);
     heap := h |}.

(** [initialize()], when it succeeds: [new PlaywrightCrawler({...,
    proxyConfiguration: this.options.proxyConfiguration, ...})] hands the
    options' proxy configuration object to the crawler, which keeps that
    reference as its [proxyConfiguration] property. *)
Definition initialize (this : WebCrawler) : WebCrawler :=
  mkWebCrawler (options_proxyConfiguration this) (stats this) (urlFilter this)
    (Some {| crawler_proxyConfiguration := options_proxyConfiguration this |})
    (currentProxyIndex this) (proxyRotationEnabled this) (heap this).

(** [obj.proxyUrls] for the object at an address. *)
Definition read_proxyUrls (h : gmap loc ProxyConfiguration) (l : loc)
    : option (list (option string)) :=
  h !! l ≫= proxyUrls.

Definition rotateProxy (this : WebCrawler) : WebCrawler :=
  match options_proxyConfiguration this with
  | None => this
  | Some l =>
    match read_proxyUrls (heap this) l with
    | None => this
    | Some urls =>
      let index := succ_rem (currentProxyIndex this) (Z.of_nat (length urls)) in
      let heap' :=
        match crawler this with
        | Some c =>
          match crawler_proxyConfiguration c with
          | Some l' => <[l' := {| proxyUrls := Some [Array_get urls index] |}]> (heap this)
          | None => heap this
          end
        | None => heap this
        end in
      mkWebCrawler (options_proxyConfiguration this) (stats this) (urlFilter this)
        (crawler this) index (proxyRotationEnabled this) heap'
    end
  end.

(** The proxy URLs the browser layer is left with. *)
Definition active_proxyUrls (this : WebCrawler) : option (list (option string)) :=
  c ← crawler this;
  l ← crawler_proxyConfiguration c;
  read_proxyUrls (heap this) l.

(** The browser-layer crawler, if there is one, holds another object than
    the one at [l]. *)
Definition unshared (this : WebCrawler) (l : loc) : Prop :=
  forall c l', crawler this = Some c -> crawler_proxyConfiguration c = Some l' -> l' <> l.

Inductive RecoveryAction : Type :=
  | RotatedProxy
  | MemoryCleanup.

Definition getErrorSeverity (category : string) : string :=
  if String.eqb category ErrorCategory.MEMORY then ErrorSeverity.HIGH
  else if String.eqb category ErrorCategory.NETWORK then ErrorSeverity.MEDIUM
  else if String.eqb category ErrorCategory.TIMEOUT then ErrorSeverity.MEDIUM
  else if String.eqb category ErrorCategory.RATE_LIMIT then ErrorSeverity.LOW
  else ErrorSeverity.MEDIUM.

Section Recovery.
Variable toLowerCase : string -> string.

(** [handleFailedRequestWithRecovery({ request, error })]: the new state
    and the recovery actions taken, in order. [performMemoryCleanup]
    touches nothing of the crawler's state (it asks for a garbage
    collection and waits), so it is recorded as an action; logging is
    left out. *)
Definition handleFailedRequestWithRecovery (this : WebCrawler)
    (request_url : string) (request_retryCount : option Z) (error : JsError)
    (now : string) : WebCrawler * list RecoveryAction :=
  let category := categorizeError toLowerCase error in
  let crawlerError :=
    CrawlerError.new (error_message error) category (getErrorSeverity category)
      {[ "url" := VString request_url;
         "retryCount" := VNumber (default 0 request_retryCount) ]} now in
  let stats' :=
    CrawlingStats.addError (CrawlerError.message crawlerError) request_url now
      (CrawlingStats.incr_failedRequests (stats this)) in
  let this1 :=
    mkWebCrawler (options_proxyConfiguration this) stats' (urlFilter this)
      (crawler this) (currentProxyIndex this) (proxyRotationEnabled this)
      (heap this) in
  let '(this2, rotated) :=
    if String.eqb category ErrorCategory.RATE_LIMIT && proxyRotationEnabled this1
    then (rotateProxy this1, [RotatedProxy])
    else (this1, []) in
  let cleaned :=
    if String.eqb category ErrorCategory.MEMORY then [MemoryCleanup] else [] in
  (this2, (rotated ++ cleaned)%list).
End Recovery.

(** ** Reference instances of the two library parameters

    The general theorems hold for every matcher and every URL parser. The
    examples run the filter on concrete strings, with a matcher and a parser
    that follow minimatch and the URL Standard on the inputs they accept. *)

Module Reference.
Definition is_char (c d : ascii) : bool := Ascii.eqb c d.

Fixpoint string_forallb (p : ascii -> bool) (s : string) : bool :=
  match s with
  | EmptyString => true
  | String c rest => p c && string_forallb p rest
  end.

Fixpoint string_existsb (p : ascii -> bool) (s : string) : bool :=
  match s with
  | EmptyString => false
  | String c rest => p c || string_existsb p rest
  end.

(** The text before the first [c], and the text after it when there is one. *)
Fixpoint split_at (c : ascii) (s : string) : string * option string :=
  match s with
  | EmptyString => (EmptyString, None)
  | String d rest =>
      if is_char c d then (EmptyString, Some rest)
      else let '(before, after) := split_at c rest in (String d before, after)
  end.

(** [s.split(/\/+/)]: a run of slashes separates two segments. *)
Fixpoint slashSplit_go (s cur : string) (after_slash : bool) : list string :=
  match s with
  | EmptyString => [cur]
  | String c rest =>
      if is_char c "/"
      then if after_slash then slashSplit_go rest EmptyString true
           else cur :: slashSplit_go rest EmptyString true
      else slashSplit_go rest (cur +:+ String c EmptyString) false
  end.

Definition slashSplit (s : string) : list string :=
  slashSplit_go s EmptyString false.

(** *** Glob matching

    Patterns made of literal characters, [?], [*] and [**] segments, as
    minimatch reads them with its default options. Braces, character
    classes, extended globs, negation and comments are not interpreted;
    the examples use none of them. *)

Definition is_magic (c : ascii) : bool := is_char c "*" || is_char c "?".

Definition starts_with_dot (s : string) : bool :=
  match s with
  | String c _ => is_char c "."
  | EmptyString => false
  end.

Definition starts_with_magic (s : string) : bool :=
  match s with
  | String c _ => is_magic c
  | EmptyString => false
  end.

Definition is_empty (s : string) : bool :=
  match s with
  | EmptyString => true
  | String _ _ => false
  end.

(** One pattern segment against one path segment: [*] is any run of
    characters, [?] is any one character. *)
Fixpoint wildcard_match (p s : string) : bool :=
  match p with
  | EmptyString => is_empty s
  | String c p' =>
      if is_char c "*" then
        (fix star (s : string) : bool :=
           wildcard_match p' s ||
           match s with
           | EmptyString => false
           | String _ s' => star s'
           end) s
      else
        match s with
        | EmptyString => false
        | String d s' => (is_char c "?" || is_char c d) && wildcard_match p' s'
        end
  end.

(** A segment with a wildcard matches no empty segment, and when the
    wildcard comes first, no segment that starts with a dot. *)
Definition segment_match (p s : string) : bool :=
  if string_existsb is_magic p
  then negb (is_empty s)
       && negb (starts_with_magic p && starts_with_dot s)
       && wildcard_match p s
  else String.eqb p s.

Fixpoint matchOne (file pattern : list string) : bool :=
  match pattern with
  | [] =>
      match file with
      | [] => true
      | [last] => is_empty last
      | _ => false
      end
  | p :: pattern' =>
      if String.eqb p "**" then
        match pattern' with
        | [] => forallb (fun f => negb (starts_with_dot f)) file
        | _ =>
          (fix swallow (file : list string) : bool :=
             match file with
             | [] => false
             | f :: file' =>
                 matchOne file pattern' || (negb (starts_with_dot f) && swallow file')
             end) file
        end
      else
        match file with
        | [] => false
        | f :: file' => segment_match p f && matchOne file' pattern'
        end
  end.

Definition MAX_PATTERN_LENGTH : Z := 65536.

Definition minimatch (path pattern : string) : Completion bool :=
  if MAX_PATTERN_LENGTH <? Z.of_nat (String.length pattern)
  then Throw (PlainError "TypeError" "pattern is too long")
  else Normal (matchOne (slashSplit path) (slashSplit pattern)).

(** *** URL parsing

    Absolute [http] and [https] URLs written
    [scheme://host/path?query#fragment], with a host of letters and dots
    and with path, query and fragment of characters that the parser
    neither encodes nor rewrites. On these the URL Standard lowers the
    case of scheme and host and gives an empty path the value [/]. Every
    other string is rejected here. *)

Definition is_letter (c : ascii) : bool :=
  let n := nat_of_ascii c in
  (((65 <=? n) && (n <=? 90)) || ((97 <=? n) && (n <=? 122)))%nat.

Definition is_digit (c : ascii) : bool :=
  let n := nat_of_ascii c in ((48 <=? n) && (n <=? 57))%nat.

Definition is_unreserved (c : ascii) : bool :=
  is_letter c || is_digit c || is_char c "-" || is_char c "_" || is_char c "."
  || is_char c "~".

Definition is_path_char (c : ascii) : bool := is_unreserved c || is_char c "/".

Definition is_query_char (c : ascii) : bool :=
  is_unreserved c || is_char c "/" || is_char c "=" || is_char c "&".

Definition is_host_char (c : ascii) : bool := is_letter c || is_char c ".".

Definition is_dot_segment (s : string) : bool :=
  String.eqb s "." || String.eqb s "..".

Definition option_forallb {A} (p : A -> bool) (o : option A) : bool :=
  match o with
  | Some a => p a
  | None => true
  end.

Definition URL_parse (input : string) : option URL.t :=
  let '(before_hash, fragment) := split_at "#" input in
  let '(before_query, query) := split_at "?" before_hash in
  match split_at ":" before_query with
  | (scheme, Some rest) =>
      let scheme := ascii_toLowerCase scheme in
      match rest with
      | String "/" (String "/" rest') =>
          let '(host, path) := split_at "/" rest' in
          let path := match path with
                      | Some p => String "/" p
                      | None => "/"
                      end in
          if (String.eqb scheme "http" || String.eqb scheme "https")
             && negb (is_empty host)
             && string_forallb is_host_char host
             && match host with String c _ => is_letter c | EmptyString => false end
             && string_forallb is_path_char path
             && negb (existsb is_dot_segment (slashSplit path))
             && option_forallb (string_forallb is_query_char) query
             && option_forallb (string_forallb is_unreserved) fragment
          then Some (URL.mk scheme (Some (ascii_toLowerCase host)) path query fragment)
          else None
      | _ => None
      end
  | (_, None) => None
  end.
End Reference.

(** The specification's reading of normalisation, "the URL string with only
    its fragment removed": the text before the first hash sign. *)
Definition strip_fragment_spec (u : string) : string :=
  fst (Reference.split_at "#" u).

(** No hash sign stands before the fragment of a parsed URL (the parser
    starts the fragment at the first one). *)
Definition no_hash_before_fragment (u : URL.t) : bool :=
  Reference.string_forallb (fun c => negb (Reference.is_char "#" c))
    (URL.without_fragment u).

(** The filter of a crawler created without options. *)
Definition default_filter : UrlFilter := new_UrlFilter None None None.

(** A documentation site's filter: everything under [/docs], except PDFs. *)
Definition docs_filter : UrlFilter :=
  new_UrlFilter (Some ["https://example.com/docs/**"]) (Some ["**/*.pdf"]) (Some 2).



(** ** Inputs of the examples *)

(** [{ maxRetries: 3, baseDelay: 1000 }], the crawler's retry settings. *)
Definition retry_3_1000 : RetryConfig := new_RetryConfig (Some 3) (Some 1000).

Definition network_error : CrawlerError.t :=
  CrawlerError.new "socket hang up" ErrorCategory.NETWORK ErrorSeverity.MEDIUM
    ∅ "2024-01-01T00:00:00.000Z".

Definition validation_error : CrawlerError.t :=
  CrawlerError.new "startUrls must be an array" ErrorCategory.VALIDATION
    ErrorSeverity.MEDIUM ∅ "2024-01-01T00:00:00.000Z".

(** An operation that fails with the same error on every call and touches
    nothing. *)
Definition always_fails (error : JsError) : Operation unit unit :=
  fun s => (s, Throw error).

(** [() => Promise.reject()]: an operation that rejects with [undefined]. *)
Definition rejects_with_undefined : Operation unit unit :=
  fun s => (s, Throw Nullish).

Definition fresh_store : Store unit := mkStore ∅ new_ErrorStats tt.

(** The proxy configuration object of the rotation example, at address 1,
    and a crawler that was created with it and initialised. *)
Definition heap_abc : gmap loc ProxyConfiguration :=
  {[ 1%positive := {| proxyUrls := Some [Some "a"; Some "b"; Some "c"] |} ]}.

Definition created_abc : WebCrawler :=
  new_WebCrawler None None None (Some 1%positive) heap_abc 0.

Definition crawler_abc : WebCrawler := initialize created_abc.

(** A crawler whose browser layer holds a proxy configuration object of its
    own (address 2), not the one of the options (address 1). *)
Definition separate_abc : WebCrawler :=
  mkWebCrawler (Some 1%positive) (CrawlingStats.new 0) default_filter
    (Some {| crawler_proxyConfiguration := Some 2%positive |}) (Int 0) true
    (<[2%positive := {| proxyUrls := Some [Some "a"; Some "b"; Some "c"] |}]> heap_abc).

(** One successful request out of three. *)
Definition one_of_three : CrawlingStats.t :=
  CrawlingStats.mk 0 None 3 1 2 0 0 1 4 100 [] [].

(** ** More of the retry policy, the statistics and the filter *)

(** The events of a call that invokes the operation [n] times, the local
    counter being [count] at the start: an invocation, then before every
    further one a sleep of [baseDelay] times the number of failures so far. *)
Fixpoint retry_schedule (config : RetryConfig) (count : Z) (n : nat) : list Event :=
  match n with
  | O => []
  | S m =>
      match m with
      | O => [Invoke]
      | S _ => Invoke :: Sleep (baseDelay config * (count + 1))
                 :: retry_schedule config (count + 1) m
      end
  end.

(** The delays of a call, in the order in which they were slept. *)
Fixpoint sleeps (events : list Event) : list Z :=
  match events with
  | [] => []
  | Invoke :: rest => sleeps rest
  | Sleep ms :: rest => ms :: sleeps rest
  end.

(** [totalErrors] is not negative, and every per-category count is positive
    and at most [totalErrors]. *)
Definition stats_consistent (st : ErrorStats) : Prop :=
  0 <= totalErrors st
  /\ forall category n, errorsByCategory st !! category = Some n ->
                        0 < n <= totalErrors st.

(** The operation leaves the handler's tallies alone. *)
Definition keeps_errorStats {W R} (operation : Operation W R) : Prop :=
  forall s, errorStats (fst (operation s)) = errorStats s.

(** The operation leaves the retry counter of [operationId] alone. *)
Definition keeps_attempts {W R} (operation : Operation W R) (operationId : string) : Prop :=
  forall s, attempts (fst (operation s)) !! operationId = attempts s !! operationId.

(** [resetStats()] *)
Definition resetStats {W} (s : Store W) : Store W :=
  mkStore (attempts s) new_ErrorStats (world s).

(** [console.error], [console.warn] and [console.log]. *)
Inductive ConsoleLevel : Type :=
  | ConsoleError
  | ConsoleWarn
  | ConsoleLog.

Section Logging.
(** [getErrorEmoji(category)]: the pictograph of a category. *)
Variable getErrorEmoji : string -> string.

(** [logFailedRequest(error, url)]: the console method that is called and
    the line it prints; [None] when the severity is none of the four. *)
Definition logFailedRequest (error : CrawlerError.t) (url : string)
    : option (ConsoleLevel * string) :=
  let emoji := getErrorEmoji (CrawlerError.category error) in
  let message :=
    emoji +:+ " Request failed for " +:+ url +:+ ": " +:+ CrawlerError.message error in
  let severity := CrawlerError.severity error in
  if String.eqb severity ErrorSeverity.HIGH || String.eqb severity ErrorSeverity.CRITICAL
  then Some (ConsoleError, message)
  else if String.eqb severity ErrorSeverity.MEDIUM then Some (ConsoleWarn, message)
  else if String.eqb severity ErrorSeverity.LOW then Some (ConsoleLog, message)
  else None.
End Logging.

(** [complete()]: [now] is the time of the call. *)
Definition complete (now : Z) (this : CrawlingStats.t) : CrawlingStats.t :=
  CrawlingStats.mk (CrawlingStats.startTime this) (Some now)
    (CrawlingStats.totalRequests this) (CrawlingStats.successfulRequests this)
    (CrawlingStats.failedRequests this) (CrawlingStats.filteredUrls this)
    (CrawlingStats.depthExceededUrls this) (CrawlingStats.processedPages this)
    (CrawlingStats.extractedChunks this) (CrawlingStats.totalTokens this)
    (CrawlingStats.errors this) (CrawlingStats.warnings this).

(** [getDuration()], in seconds: [this.endTime || new Date()] is the end
    time once there is one, and the time of the call before. The
    difference of two dates is a whole number of milliseconds; its quotient
    by 1000 is kept exact here, which gives the same integer as the
    binary64 quotient ([getDuration_binary64]). *)
Definition getDuration (this : CrawlingStats.t) (now : Z) : Z :=
  let end_ := default now (CrawlingStats.endTime this) in
  CrawlingStats.Math_round
    (inject_Z (end_ - CrawlingStats.startTime this) / inject_Z 1000)%Q.

Definition incr_filteredUrls (this : CrawlingStats.t) : CrawlingStats.t :=
  CrawlingStats.mk (CrawlingStats.startTime this) (CrawlingStats.endTime this)
    (CrawlingStats.totalRequests this) (CrawlingStats.successfulRequests this)
    (CrawlingStats.failedRequests this) (CrawlingStats.filteredUrls this + 1)
    (CrawlingStats.depthExceededUrls this) (CrawlingStats.processedPages this)
    (CrawlingStats.extractedChunks this) (CrawlingStats.totalTokens this)
    (CrawlingStats.errors this) (CrawlingStats.warnings this).

Definition incr_depthExceededUrls (this : CrawlingStats.t) : CrawlingStats.t :=
  CrawlingStats.mk (CrawlingStats.startTime this) (CrawlingStats.endTime this)
    (CrawlingStats.totalRequests this) (CrawlingStats.successfulRequests this)
    (CrawlingStats.failedRequests this) (CrawlingStats.filteredUrls this)
    (CrawlingStats.depthExceededUrls this + 1) (CrawlingStats.processedPages this)
    (CrawlingStats.extractedChunks this) (CrawlingStats.totalTokens this)
    (CrawlingStats.errors this) (CrawlingStats.warnings this).



Section FilterMore.
Variable minimatch : string -> string -> Completion bool.
Variable URL_parse : string -> option URL.t.
(** [parsed.origin] of the runtime's URL objects. *)
Variable URL_origin : URL.t -> string.

Definition set_baseUrls (b : gset string) (this : UrlFilter) : UrlFilter :=
  {| includeGlobs := includeGlobs this; excludeGlobs := excludeGlobs this;
     maxDepth := maxDepth this; baseUrls := b |}.

(** [addBaseUrls(urls)]: a URL that does not parse is reported on the
    console and skipped. *)
Definition addBaseUrls (urls : list string) (this : UrlFilter) : UrlFilter :=
  fold_left
    (fun this url =>
       match try_catch
               (parsed ← new_URL URL_parse url;
                Normal (Some (URL_origin parsed)))
               (fun _ => Normal None) with
       | Normal (Some origin) => set_baseUrls ({[ origin ]} ∪ baseUrls this) this
       | _ => this
       end)
    urls this.

End FilterMore.

(** A request of the browser layer: its URL and the [depth] of its
    [userData], when it has one. *)
Record Request := { request_url : string; userData_depth : option Z }.

Definition set_stats (st : CrawlingStats.t) (this : WebCrawler) : WebCrawler :=
  mkWebCrawler (options_proxyConfiguration this) st (urlFilter this) (crawler this)
    (currentProxyIndex this) (proxyRotationEnabled this) (heap this).

Section Discover.
Variable minimatch : string -> string -> Completion bool.
Variable URL_parse : string -> option URL.t.

(** The [transformRequestFunction] that [discoverLinks] hands to
    [enqueueLinks]: [None] is its [false] (do not enqueue). *)
Definition transformRequestFunction (nextDepth : Z) (this : WebCrawler)
    (req : Request) : WebCrawler * option Request :=
  match
    (url ← normalizeUrl URL_parse (request_url req);
     filterResult ← shouldCrawl minimatch (urlFilter this) url nextDepth;
     if negb (FilterDecision.allowed filterResult)
     then
       if String.eqb (FilterDecision.reason filterResult) "depth_exceeded"
       then Normal (set_stats (incr_depthExceededUrls (stats this)) this, None)
       else Normal (set_stats (incr_filteredUrls (stats this)) this, None)
     else Normal (this, Some {| request_url := request_url req;
                                userData_depth := Some nextDepth |}))
  with
  | Normal out => out
  | Throw _ => (this, None)
  end.

(** [discoverLinks({ currentDepth, ... })] over the links that
    [enqueueLinks] finds on the page, in order: the crawler afterwards and
    the requests that are enqueued. *)
Definition discoverLinks (this : WebCrawler) (currentDepth : Z) (links : list Request)
    : WebCrawler * list Request :=
  let nextDepth := currentDepth + 1 in
  fold_left
    (fun '(this, enqueued) req =>
       match transformRequestFunction nextDepth this req with
       | (this', Some req') => (this', (enqueued ++ [req'])%list)
       | (this', None) => (this', enqueued)
       end)
    links (this, []).
End Discover.

(** What the frontier filter decides for a link, and the request that is
    enqueued for an admitted link. *)
Definition link_decision (minimatch : string -> string -> Completion bool)
    (URL_parse : string -> option URL.t) (filter : UrlFilter) (nextDepth : Z)
    (req : Request) : option FilterDecision.t :=
  match frontier_filter minimatch URL_parse filter (request_url req) nextDepth with
  | Normal decision => Some decision
  | Throw _ => None
  end.

Definition link_admitted minimatch URL_parse filter nextDepth (req : Request) : bool :=
  match link_decision minimatch URL_parse filter nextDepth req with
  | Some decision => FilterDecision.allowed decision
  | None => false
  end.

Definition link_depth_exceeded minimatch URL_parse filter nextDepth (req : Request) : bool :=
  match link_decision minimatch URL_parse filter nextDepth req with
  | Some decision =>
      negb (FilterDecision.allowed decision)
      && String.eqb (FilterDecision.reason decision) "depth_exceeded"
  | None => false
  end.

Definition link_filtered minimatch URL_parse filter nextDepth (req : Request) : bool :=
  match link_decision minimatch URL_parse filter nextDepth req with
  | Some decision =>
      negb (FilterDecision.allowed decision)
      && negb (String.eqb (FilterDecision.reason decision) "depth_exceeded")
  | None => false
  end.

Definition with_depth (nextDepth : Z) (req : Request) : Request :=
  {| request_url := request_url req; userData_depth := Some nextDepth |}.

(** [request.userData?.depth || 0], the depth [handleRequest] passes on. *)
Definition request_depth (req : Request) : Z := default 0 (userData_depth req).

(** What the content extractor returns, as far as the crawler reads it. *)
Record ExtractionResult := {
  extraction_success : bool;
  extraction_markdown : option string;     (* [None]: no such property *)
  extraction_title : string;               (* [title || ''] *)
  extraction_fallbackUsed : bool
}.

Record ExtractOptions := {
  extract_url : string;
  extract_fallback : bool;
  extract_minContentLength : option Z
}.


Section Fallback.
(** [this.contentExtractor.extract(html, options)] *)
Variable extract : string -> ExtractOptions -> Completion ExtractionResult.

End Fallback.

(** [processingOptions], as far as [validateConfiguration] reads it. A
    number that is missing is [undefined], here [None]. *)
Record ProcessingOptions := {
  chunkSize : option Z;
  chunkOverlap : option Z
}.

(** [this.options] of the integrated crawler, as far as
    [validateConfiguration] and the crawler's filter read it. [None] is
    [undefined]: for the globs, a value that is not an array. *)
Record IntegrationOptions := {
  opt_includeUrlGlobs : option (list string);
  opt_excludeUrlGlobs : option (list string);
  opt_maxCrawlDepth : option Z;
  opt_maxConcurrency : option Z;
  opt_processingOptions : option ProcessingOptions
}.

Definition DEFAULT_INTEGRATION_OPTIONS : IntegrationOptions :=
  {| opt_includeUrlGlobs := Some ["**"];
     opt_excludeUrlGlobs := Some ["**/*.pdf"; "**/*.jpg"; "**/*.png"; "**/*.gif"; "**/*.zip"];
     opt_maxCrawlDepth := Some 3;
     opt_maxConcurrency := Some 3;
     opt_processingOptions := Some {| chunkSize := Some 1000; chunkOverlap := Some 100 |} |}.

(** [{ ...DEFAULT_INTEGRATION_OPTIONS, ...options }] of the constructor:
    an argument that is [None] is a key the caller leaves out, which keeps
    its default; a key that is given replaces the default as a whole, also
    the [processingOptions] object. *)
Definition new_IntegrationOptions
    (includeUrlGlobs excludeUrlGlobs : option (list string))
    (maxCrawlDepth maxConcurrency : option Z)
    (processingOptions : option ProcessingOptions) : IntegrationOptions :=
  let d := DEFAULT_INTEGRATION_OPTIONS in
  {| opt_includeUrlGlobs :=
       match includeUrlGlobs with Some v => Some v | None => opt_includeUrlGlobs d end;
     opt_excludeUrlGlobs :=
       match excludeUrlGlobs with Some v => Some v | None => opt_excludeUrlGlobs d end;
     opt_maxCrawlDepth :=
       match maxCrawlDepth with Some v => Some v | None => opt_maxCrawlDepth d end;
     opt_maxConcurrency :=
       match maxConcurrency with Some v => Some v | None => opt_maxConcurrency d end;
     opt_processingOptions :=
       match processingOptions with Some v => Some v | None => opt_processingOptions d end |}.

(** [a < b] and [a >= b] on numbers either of which may be [undefined]:
    [undefined] converts to [NaN], and every comparison with it is false. *)
Definition js_lt (a b : option Z) : bool :=
  match a, b with
  | Some x, Some y => x <? y
  | _, _ => false
  end.

Definition js_ge (a b : option Z) : bool :=
  match a, b with
  | Some x, Some y => y <=? x
  | _, _ => false
  end.

(** The messages that the first three tests of [validateConfiguration]
    push. *)
Definition validation_errors_crawler (options : IntegrationOptions) : list string :=
  ((match opt_includeUrlGlobs options with
    | Some (_ :: _) => []
    | Some [] | None => ["includeUrlGlobs must be a non-empty array"]
    end) ++
   (if js_lt (opt_maxCrawlDepth options) (Some 1)
    then ["maxCrawlDepth must be at least 1"] else []) ++
   (if js_lt (opt_maxConcurrency options) (Some 1)
    then ["maxConcurrency must be at least 1"] else []))%list.

(** The messages of the two tests on [processingOptions]. *)
Definition validation_errors_processing (po : ProcessingOptions) : list string :=
  ((if js_lt (chunkSize po) (Some 100)
    then ["chunkSize must be at least 100"] else []) ++
   (if js_ge (chunkOverlap po) (chunkSize po)
    then ["chunkOverlap must be less than chunkSize"] else []))%list.

(** [validateConfiguration()] of the integrated crawler. Reading
    [chunkSize] of a [processingOptions] that is [undefined] throws. *)
Definition validateConfiguration (options : IntegrationOptions) : Completion bool :=
  match opt_processingOptions options with
  | None =>
      Throw (PlainError "TypeError"
               "Cannot read properties of undefined (reading 'chunkSize')")
  | Some po =>
      let errors :=
        (validation_errors_crawler options ++ validation_errors_processing po)%list in
      if (0 <? length errors)%nat
      then Throw (PlainError "CrawlerIntegrationError"
                    ("Configuration validation failed: " +:+ String.concat ", " errors))
      else Normal true
  end.

(** The filter of the web crawler that the integrated crawler creates from
    its options: the keys are handed over as they are. *)
Definition integration_filter (options : IntegrationOptions) : UrlFilter :=
  new_UrlFilter (opt_includeUrlGlobs options) (opt_excludeUrlGlobs options)
    (opt_maxCrawlDepth options).

(** An operation that fails on its first [n] calls and then succeeds; the
    number of calls made so far is its state. *)
Definition fails_then_succeeds (n : nat) (error : JsError) : Operation nat string :=
  fun s =>
    if (world s <? n)%nat
    then (mkStore (attempts s) (errorStats s) (S (world s)), Throw error)
    else (mkStore (attempts s) (errorStats s) (S (world s)), Normal "done").

Definition counting_store : Store nat := mkStore ∅ new_ErrorStats O.

(** A crawler with the documentation site's filter. *)
Definition docs_crawler : WebCrawler :=
  new_WebCrawler (Some ["https://example.com/docs/**"]) (Some ["**/*.pdf"]) (Some 2)
    None ∅ 0.

Definition page_links : list Request :=
  [ {| request_url := "https://example.com/docs/intro#install"; userData_depth := None |};
    {| request_url := "https://example.com/docs/guide.pdf"; userData_depth := None |};
    {| request_url := "https://example.com/blog/news"; userData_depth := None |} ].


(** [new IntegratedCrawler({ processingOptions: { chunkSize: 500 } })]:
    the given object replaces the default one, so there is no
    [chunkOverlap]. *)
Definition only_chunkSize_500 : IntegrationOptions :=
  new_IntegrationOptions None None None None
    (Some {| chunkSize := Some 500; chunkOverlap := None |}).

(** ** The integrated crawler's page pipeline *)

(** What the text processor returns, as far as the crawler reads it. A
    result need not have a [chunks] property: the [TextProcessingResult] of
    this repository keeps its chunks as [processedChunks]. *)
Record ProcessingResult := {
  processing_success : bool;
  processing_chunks : option (list string);   (* [chunks], when there is one *)
  processing_totalTokens : option Z           (* [tokenEstimation?.totalTokens] *)
}.

Record SourceInfo := { sourceUrl : string; source_title : string; extractedAt : string }.

Record ProcessingStats := mkProcessingStats {
  ps_totalPages : Z;
  ps_totalChunks : Z;
  ps_totalTokens : Z;
  ps_successfulExtractions : Z;
  ps_failedExtractions : Z;
  ps_errors : list CrawlingStats.entry;
  ps_warnings : list CrawlingStats.entry
}.

(** The [processingStats] of a new integrated crawler. *)
Definition new_ProcessingStats : ProcessingStats :=
  mkProcessingStats 0 0 0 0 0 [] [].

Record PageResult := {
  page_url : string;
  page_extractionResult : ExtractionResult;
  page_processingResult : ProcessingResult;
  page_chunks : list string;
  page_processedAt : string;
  page_chunkCount : Z;
  page_tokenCount : Z;
  page_title : string
}.

Definition page_failed (st : ProcessingStats)
    (errors warnings : list CrawlingStats.entry) : ProcessingStats :=
  mkProcessingStats (ps_totalPages st) (ps_totalChunks st) (ps_totalTokens st)
    (ps_successfulExtractions st) (ps_failedExtractions st + 1)
    (ps_errors st ++ errors)%list (ps_warnings st ++ warnings)%list.

Section Pipeline.
Variable extract : string -> ExtractOptions -> Completion ExtractionResult.
(** [this.textProcessor.process(text, sourceInfo)] *)
Variable process : option string -> SourceInfo -> Completion ProcessingResult.

(** The statements of the [try] block of [processPage]: the statistics as
    the block leaves them, and how it ends. The counters are updated in
    place, one statement after the other, so an exception in the middle
    keeps the increments made before it: [totalPages++] and
    [successfulExtractions++] come before [processingResult.chunks.length],
    which throws when the result has no [chunks]. *)
Definition processPage_try (st : ProcessingStats) (url htmlContent now : string)
    : ProcessingStats * Completion (option PageResult) :=
  let entry message :=
    {| CrawlingStats.message := message; CrawlingStats.url := url;
       CrawlingStats.timestamp := now |} in
  match extract htmlContent
          {| extract_url := url; extract_fallback := false;
             extract_minContentLength := None |} with
  | Throw error => (st, Throw error)
  | Normal extractionResult =>
    if negb (extraction_success extractionResult)
    then (page_failed st [] [entry "Content extraction failed"], Normal None)
    else
      match process (extraction_markdown extractionResult)
              {| sourceUrl := url;
                 source_title := extraction_title extractionResult;
                 extractedAt := now |} with
      | Throw error => (st, Throw error)
      | Normal processingResult =>
        if negb (processing_success processingResult)
        then (page_failed st [] [entry "Text processing failed"], Normal None)
        else
          let counted :=
            mkProcessingStats (ps_totalPages st + 1) (ps_totalChunks st)
              (ps_totalTokens st) (ps_successfulExtractions st + 1)
              (ps_failedExtractions st) (ps_errors st) (ps_warnings st) in
          match processing_chunks processingResult with
          | None =>
              (counted,
               Throw (PlainError "TypeError"
                        "Cannot read properties of undefined (reading 'length')"))
          | Some chunks =>
              let chunkCount := Z.of_nat (length chunks) in
              let tokenCount := default 0 (processing_totalTokens processingResult) in
              (mkProcessingStats (ps_totalPages counted)
                 (ps_totalChunks counted + chunkCount)
                 (ps_totalTokens counted + tokenCount)
                 (ps_successfulExtractions counted) (ps_failedExtractions counted)
                 (ps_errors counted) (ps_warnings counted),
               Normal
                 (Some {| page_url := url;
                          page_extractionResult := extractionResult;
                          page_processingResult := processingResult;
                          page_chunks := chunks;
                          page_processedAt := now;
                          page_chunkCount := chunkCount;
                          page_tokenCount := tokenCount;
                          page_title := extraction_title extractionResult |}))
          end
      end
  end.

(** [processPage(url, htmlContent)]: the statistics afterwards and the
    page's result, [None] being its [null]; [now] is the time of the call.
    The [catch] block counts the failure and then reads [error.message] for
    the entry it pushes; when that read throws, the [TypeError] leaves
    [processPage] and nothing is pushed. *)
Definition processPage (st : ProcessingStats) (url htmlContent now : string)
    : ProcessingStats * Completion (option PageResult) :=
  match processPage_try st url htmlContent now with
  | (st1, Normal result) => (st1, Normal result)
  | (st1, Throw error) =>
      match read_message error with
      | Normal message =>
          (page_failed st1
             [{| CrawlingStats.message := message; CrawlingStats.url := url;
                 CrawlingStats.timestamp := now |}] [],
           Normal None)
      | Throw typeError => (page_failed st1 [] [], Throw typeError)
      end
  end.

(** [processPage] on one page after the other, whatever each call ends in. *)
Fixpoint processPages (st : ProcessingStats) (pages : list (string * string))
    (now : string) : ProcessingStats :=
  match pages with
  | [] => st
  | (url, htmlContent) :: rest =>
      processPages (fst (processPage st url htmlContent now)) rest now
  end.
End Pipeline.

(** The [successRate] of [getProcessingStats()]; quotient and product are
    each rounded to binary64. *)
Definition processing_successRate (st : ProcessingStats) : Z :=
  if 0 <? ps_totalPages st
  then CrawlingStats.Math_round
         (binary64
            (binary64 (inject_Z (ps_successfulExtractions st) / inject_Z (ps_totalPages st))
             * inject_Z 100))
  else 0.

(** An extractor that returns the page's text as it is. *)
Definition plain_extractor (html : string) (options : ExtractOptions)
    : Completion ExtractionResult :=
  Normal {| extraction_success := true; extraction_markdown := Some html;
            extraction_title := ""; extraction_fallbackUsed := false |}.

(** A processor whose result reports success and keeps its chunks under
    another name than [chunks], as the [TextProcessingResult] of this
    repository does ([processedChunks]). *)
Definition chunkless_processor (text : option string) (info : SourceInfo)
    : Completion ProcessingResult :=
  Normal {| processing_success := true; processing_chunks := None;
            processing_totalTokens := Some 2 |}.

(** A processor that splits nothing and fails on an empty text. *)
Definition one_chunk_processor (text : option string) (info : SourceInfo)
    : Completion ProcessingResult :=
  match text with
  | Some t =>
      if Reference.is_empty t
      then Normal {| processing_success := false; processing_chunks := Some [];
                     processing_totalTokens := None |}
      else Normal {| processing_success := true; processing_chunks := Some [t];
                     processing_totalTokens := Some 2 |}
  | None => Throw (PlainError "TypeError" "text must be a string")
  end.

(** * Properties *)

(** ** The retry loop *)

Section ExecuteFacts.
Context {W R : Type}.
Implicit Types (s : Store W) (operation : Operation W R) (config : RetryConfig).

(** The decision is taken on the counter that was stored just before. *)
Lemma shouldRetry_after_set config s operationId count error :
  shouldRetry config (attempts (attempts_set operationId count s)) error operationId
  = (count <? maxRetries config) && error_retryable error.
Proof.
  unfold shouldRetry, attempts_get, attempts_set; simpl.
  rewrite lookup_insert_eq. reflexivity.
Qed.

(** One iteration, unfolded. *)
Lemma executeWithRetry_loop_step fuel config operation operationId count s :
  executeWithRetry_loop (S fuel) config operation operationId count s =
  match operation s with
  | (s1, Normal result) =>
      Some (attempts_delete operationId s1, [Invoke], Normal result)
  | (s1, Throw error) =>
      let s2 := attempts_set operationId (count + 1) s1 in
      if (count + 1 <? maxRetries config) && error_retryable error
      then match executeWithRetry_loop fuel config operation operationId (count + 1) s2 with
           | Some (s3, events, r) =>
               Some (s3, Invoke :: Sleep (calculateDelay config (count + 1)) :: events, r)
           | None => None
           end
      else Some (s2, [Invoke], Throw error)
  end.
Proof.
  cbn [executeWithRetry_loop].
  destruct (operation s) as [s1 [result | error]]; [reflexivity |].
  cbv zeta. rewrite shouldRetry_after_set.
  destruct ((count + 1 <? maxRetries config) && error_retryable error); reflexivity.
Qed.

(** The loop ends: every retry needs [count + 1 < maxRetries]. *)
Lemma executeWithRetry_loop_returns fuel : forall config operation operationId count s,
  (1 <= fuel)%nat ->
  (Z.to_nat (maxRetries config - count) <= fuel)%nat ->
  is_Some (executeWithRetry_loop fuel config operation operationId count s).
Proof.
  induction fuel as [| fuel IH]; intros config operation operationId count s H1 Hm; [lia |].
  rewrite executeWithRetry_loop_step.
  destruct (operation s) as [s1 [result | error]]; [eexists; reflexivity |].
  cbv zeta.
  destruct (count + 1 <? maxRetries config) eqn:Hlt; simpl; [| eexists; reflexivity].
  destruct (error_retryable error); [| eexists; reflexivity].
  apply Z.ltb_lt in Hlt.
  destruct (IH config operation operationId (count + 1)
              (attempts_set operationId (count + 1) s1)) as [[[s3 events] r] Heq];
    [lia | lia |].
  rewrite Heq. eexists; reflexivity.
Qed.

(** More fuel does not change a result. *)
Lemma executeWithRetry_loop_fuel fuel : forall fuel' config operation operationId count s x,
  (fuel <= fuel')%nat ->
  executeWithRetry_loop fuel config operation operationId count s = Some x ->
  executeWithRetry_loop fuel' config operation operationId count s = Some x.
Proof.
  induction fuel as [| fuel IH]; intros fuel' config operation operationId count s x Hle Hx;
    [discriminate |].
  destruct fuel' as [| fuel']; [lia |].
  rewrite executeWithRetry_loop_step in *.
  destruct (operation s) as [s1 [result | error]]; [exact Hx |].
  cbv zeta in *.
  destruct ((count + 1 <? maxRetries config) && error_retryable error); [| exact Hx].
  destruct (executeWithRetry_loop fuel config operation operationId (count + 1)
              (attempts_set operationId (count + 1) s1)) as [y |] eqn:Hy; [| discriminate].
  rewrite (IH fuel' _ _ _ _ _ y); [exact Hx | lia | exact Hy].
Qed.

Lemma executeWithRetry_returns fuel config operation operationId s :
  (retry_fuel config <= fuel)%nat ->
  is_Some (executeWithRetry fuel config operation operationId s).
Proof.
  unfold retry_fuel, executeWithRetry; intros Hf.
  apply executeWithRetry_loop_returns; [lia |].
  rewrite Z.sub_0_r. lia.
Qed.

(** A first failure that is not retryable ends the loop at once. *)
Lemma executeWithRetry_fail_fast fuel config operation operationId s s1 error :
  operation s = (s1, Throw error) ->
  error_retryable error = false ->
  executeWithRetry (S fuel) config operation operationId s
  = Some (attempts_set operationId 1 s1, [Invoke], Throw error).
Proof.
  intros Hop Hnr. unfold executeWithRetry.
  rewrite executeWithRetry_loop_step, Hop. cbv zeta.
  rewrite Hnr, andb_false_r. reflexivity.
Qed.

(** An operation that keeps failing with a retryable error is invoked
    [maxRetries] times in all (once when [maxRetries] is below 1): the
    counter is incremented before it is compared with [maxRetries]. *)
Lemma executeWithRetry_loop_always_failing fuel :
  forall config operation operationId count s,
  (forall s0, exists s1 e, operation s0 = (s1, Throw (CrawlerErr e))
                           /\ CrawlerError.isRetryable e = true) ->
  (1 <= fuel)%nat ->
  (Z.to_nat (maxRetries config - count) <= fuel)%nat ->
  exists s' events (error : JsError),
    executeWithRetry_loop fuel config operation operationId count s
      = Some (s', events, Throw error)
    /\ invocations events = Z.max 1 (maxRetries config - count).
Proof.
  induction fuel as [| fuel IH];
    intros config operation operationId count s Hfail H1 Hm; [lia |].
  rewrite executeWithRetry_loop_step.
  destruct (Hfail s) as (s1 & e & Hop & Hr). rewrite Hop. cbv zeta.
  cbn [error_retryable]. rewrite Hr, andb_true_r.
  destruct (count + 1 <? maxRetries config) eqn:Hlt.
  - apply Z.ltb_lt in Hlt.
    destruct (IH config operation operationId (count + 1)
                (attempts_set operationId (count + 1) s1) Hfail)
      as (s' & events & error & Heq & Hinv); [lia | lia |].
    rewrite Heq. eexists _, _, _. split; [reflexivity |].
    cbn [invocations]. rewrite Hinv. lia.
  - apply Z.ltb_ge in Hlt.
    eexists _, _, _. split; [reflexivity |]. cbn [invocations]. lia.
Qed.
End ExecuteFacts.

(** ** Claims on the retry policy and the error handler *)

(** C7. A [CrawlerError] that the constructor builds (also through
    [fromError]) has the category it was given in its [category] field, and
    its [retryable] field is true exactly when that [category] field is
    network, timeout or rate_limit (it is what [isRetryable()] answers on
    the object); and an
    operation whose failure is a [CrawlerError] of any other category is
    invoked once by [executeWithRetry], with no sleep, the error being
    rethrown to the error handler, which turns it into the skip sentinel. *)
Theorem retryable_iff_category_and_fail_fast :
  ((forall message category severity context now,
      let e := CrawlerError.new message category severity context now in
      CrawlerError.category e = category
      /\ CrawlerError.retryable e = CrawlerError.isRetryable e
      /\ (CrawlerError.retryable e = true
          <-> CrawlerError.category e ∈
                [ErrorCategory.NETWORK; ErrorCategory.TIMEOUT; ErrorCategory.RATE_LIMIT]))
   /\
   (forall error category context now,
      let e := fromError error category context now in
      CrawlerError.category e = category
      /\ CrawlerError.retryable e = CrawlerError.isRetryable e
      /\ (CrawlerError.retryable e = true
          <-> CrawlerError.category e ∈
                [ErrorCategory.NETWORK; ErrorCategory.TIMEOUT; ErrorCategory.RATE_LIMIT])))
  /\
  (forall (W R : Type) (operation : Operation W R) config operationId s s1 e fuel,
     operation s = (s1, Throw (CrawlerErr e)) ->
     CrawlerError.category e ∉
       [ErrorCategory.NETWORK; ErrorCategory.TIMEOUT; ErrorCategory.RATE_LIMIT] ->
     (1 <= fuel)%nat ->
     executeWithRetry fuel config operation operationId s
       = Some (attempts_set operationId 1 s1, [Invoke], Throw (CrawlerErr e))
     /\ executeWithErrorHandling fuel config operation operationId s
       = Some (updateErrorStats (CrawlerErr e) (attempts_set operationId 1 s1),
               [Invoke],
               Normal (Skip {| recovered := false; skipped := true;
                                 reason := CrawlerError.message e |}))).
Proof.
  assert (Hincl : forall category,
             CrawlerError.includes CrawlerError.retryableCategories category = true
             <-> category ∈ [ErrorCategory.NETWORK; ErrorCategory.TIMEOUT;
                             ErrorCategory.RATE_LIMIT]).
  { intros category. unfold CrawlerError.includes, CrawlerError.retryableCategories.
    rewrite existsb_exists. split.
    - intros (x & Hin & Heq). apply String.eqb_eq in Heq. subst x.
      apply list_elem_of_In. exact Hin.
    - intros Hin. exists category. split; [apply list_elem_of_In; exact Hin |].
      apply String.eqb_refl. }
  split; [split |].
  - intros message category severity context now e.
    split; [reflexivity |]. split; [reflexivity |].
    subst e. simpl. unfold CrawlerError.isRetryable. simpl. apply Hincl.
  - intros error category context now e.
    split; [reflexivity |]. split; [reflexivity |].
    subst e. unfold fromError. simpl.
    unfold CrawlerError.isRetryable. simpl. apply Hincl.
  - intros W R operation config operationId s s1 e fuel Hop Hcat Hfuel.
    assert (Hnr : error_retryable (CrawlerErr e) = false).
    { simpl. unfold CrawlerError.isRetryable.
      destruct (CrawlerError.includes CrawlerError.retryableCategories
                  (CrawlerError.category e)) eqn:Hi; [| reflexivity].
      apply Hincl in Hi. contradiction. }
    destruct fuel as [| fuel]; [lia |].
    pose proof (executeWithRetry_fail_fast fuel config operation operationId s s1 _ Hop Hnr)
      as Hretry.
    split; [exact Hretry |].
    unfold executeWithErrorHandling. rewrite Hretry. reflexivity.
Qed.

Lemma retryable_iff_category_and_fail_fast_witness :
  executeWithErrorHandling 1 retry_3_1000 (always_fails (CrawlerErr validation_error))
    "content-extraction-https://example.com/" fresh_store
  = Some (updateErrorStats (CrawlerErr validation_error)
            (attempts_set "content-extraction-https://example.com/" 1 fresh_store),
          [Invoke],
          Normal (Skip {| recovered := false; skipped := true;
                               reason := "startUrls must be an array" |})).
Proof.
  destruct retryable_iff_category_and_fail_fast as [_ H].
  refine (proj2 (H unit unit (always_fails (CrawlerErr validation_error)) retry_3_1000
                   "content-extraction-https://example.com/" fresh_store fresh_store
                   validation_error 1%nat _ _ _)).
  - reflexivity.
  - intros Hin. apply list_elem_of_In in Hin. simpl in Hin. intuition discriminate.
  - lia.
Defined.

(** C1. With [maxRetries = 3] and [baseDelay = 1000], an operation that
    fails with a retryable error on every call is invoked three times by
    [executeWithRetry] (not four), with sleeps of 1000 ms and 2000 ms in
    between (and no sleep of 3000 ms): the third failure stores the count 3,
    which is no longer below [maxRetries]. The error then reaches the error
    handler, which returns the skip sentinel. *)
Theorem executeWithRetry_three_invocations
    {W R : Type} (operation : Operation W R) config operationId s fuel :
  maxRetries config = 3 ->
  baseDelay config = 1000 ->
  (forall s0, exists s1 e, operation s0 = (s1, Throw (CrawlerErr e))
                           /\ CrawlerError.isRetryable e = true) ->
  (3 <= fuel)%nat ->
  exists s' (error : JsError),
    executeWithRetry fuel config operation operationId s
      = Some (s', [Invoke; Sleep 1000; Invoke; Sleep 2000; Invoke], Throw error)
    /\ attempts s' !! operationId = Some 3
    /\ executeWithErrorHandling fuel config operation operationId s
      = Some (updateErrorStats error s',
              [Invoke; Sleep 1000; Invoke; Sleep 2000; Invoke],
              Normal (Skip {| recovered := false; skipped := true;
                              reason := error_message error |})).
Proof.
  intros Hmax Hbase Hfail Hfuel.
  destruct (Hfail s) as (s1 & e1 & Hop1 & Hr1).
  destruct (Hfail (attempts_set operationId 1 s1)) as (s2 & e2 & Hop2 & Hr2).
  destruct (Hfail (attempts_set operationId 2 s2)) as (s3 & e3 & Hop3 & Hr3).
  assert (Hrun : executeWithRetry fuel config operation operationId s
                 = Some (attempts_set operationId 3 s3,
                         [Invoke; Sleep 1000; Invoke; Sleep 2000; Invoke],
                         Throw (CrawlerErr e3))).
  { apply (executeWithRetry_loop_fuel 3); [exact Hfuel |].
    rewrite executeWithRetry_loop_step, Hop1. cbv zeta.
    change (0 + 1) with 1.
    rewrite executeWithRetry_loop_step, Hop2. cbv zeta.
    change (1 + 1) with 2.
    rewrite executeWithRetry_loop_step, Hop3. cbv zeta.
    change (2 + 1) with 3.
    unfold calculateDelay. rewrite Hmax, Hbase. simpl. rewrite Hr1, Hr2.
    reflexivity. }
  exists (attempts_set operationId 3 s3), (CrawlerErr e3).
  split; [exact Hrun |]. split.
  - simpl. apply lookup_insert_eq.
  - unfold executeWithErrorHandling. rewrite Hrun. reflexivity.
Qed.

Lemma executeWithRetry_three_invocations_witness :
  exists s' (error : JsError),
    executeWithRetry 4 retry_3_1000 (always_fails (CrawlerErr network_error))
      "page-request-https://example.com/" fresh_store
      = Some (s', [Invoke; Sleep 1000; Invoke; Sleep 2000; Invoke], Throw error)
    /\ attempts s' !! "page-request-https://example.com/" = Some 3
    /\ executeWithErrorHandling 4 retry_3_1000 (always_fails (CrawlerErr network_error))
         "page-request-https://example.com/" fresh_store
      = Some (updateErrorStats error s',
              [Invoke; Sleep 1000; Invoke; Sleep 2000; Invoke],
              Normal (Skip {| recovered := false; skipped := true;
                              reason := error_message error |})).
Proof.
  apply (executeWithRetry_three_invocations
           (always_fails (CrawlerErr network_error)) retry_3_1000
           "page-request-https://example.com/" fresh_store 4).
  - reflexivity.
  - reflexivity.
  - intros s0. exists s0, network_error. split; reflexivity.
  - lia.
Defined.

(** C2. [executeWithErrorHandling] terminates, but not always with a value.
    When the retry policy gives up with an [Error] object, the result is
    the sentinel with the error's message as reason; when the operation
    rejected with [null] or [undefined], reading [error.message] in the
    [catch] block throws, and that [TypeError] propagates to the caller
    instead of a sentinel. In both cases [totalErrors] has grown by one, and
    for a [CrawlerError] the count of its category has grown by one (from 0
    when the category had no entry); otherwise the per-category counts are
    left as they were. *)
Theorem executeWithErrorHandling_throws_for_nullish
    {W R : Type} (operation : Operation W R) config operationId s fuel :
  (retry_fuel config <= fuel)%nat ->
  exists s' events (r : Completion (HandlerResult R)),
    executeWithErrorHandling fuel config operation operationId s
      = Some (s', events, r)
    /\ (forall s1 events1 result,
          executeWithRetry fuel config operation operationId s
            = Some (s1, events1, Normal result) ->
          r = Normal (Value result) /\ s' = s1)
    /\ forall s1 events1 thrown,
         executeWithRetry fuel config operation operationId s
           = Some (s1, events1, Throw thrown) ->
         attempts s' = attempts s1 /\ world s' = world s1
         /\ totalErrors (errorStats s') = totalErrors (errorStats s1) + 1
         /\ match thrown with
            | Err error =>
                r = Normal (Skip {| recovered := false; skipped := true;
                                    reason := error_message error |})
                /\ match error with
                   | CrawlerErr e =>
                       errorsByCategory (errorStats s') =
                       <[CrawlerError.category e :=
                           default 0 (errorsByCategory (errorStats s1)
                                        !! CrawlerError.category e) + 1]>
                         (errorsByCategory (errorStats s1))
                   | PlainError _ _ =>
                       errorsByCategory (errorStats s') = errorsByCategory (errorStats s1)
                   end
            | Nullish =>
                r = Throw (PlainError "TypeError"
                             "Cannot read properties of undefined (reading 'message')")
                /\ errorsByCategory (errorStats s') = errorsByCategory (errorStats s1)
            end.
Proof.
  intros Hfuel.
  destruct (executeWithRetry_returns fuel config operation operationId s Hfuel)
    as [[[s1 events] [result | thrown]] Hrun];
    unfold executeWithErrorHandling; rewrite Hrun.
  - exists s1, events, (Normal (Value result)). split; [reflexivity |]. split.
    + intros s1' events1 result' H. injection H as <- <- <-. split; reflexivity.
    + intros s1' events1 thrown H. discriminate H.
  - destruct thrown as [error |]; cbn [read_message].
    + eexists _, events, _. split; [reflexivity |]. split.
      * intros s1' events1 result H. discriminate H.
      * intros s1' events1 thrown H. injection H as <- <- <-.
        repeat split; try reflexivity.
        destruct error; reflexivity.
    + eexists _, events, _. split; [reflexivity |]. split.
      * intros s1' events1 result H. discriminate H.
      * intros s1' events1 thrown H. injection H as <- <- <-.
        repeat split; reflexivity.
Qed.

Lemma executeWithErrorHandling_throws_for_nullish_witness :
  exists s',
    executeWithErrorHandling 4 retry_3_1000 rejects_with_undefined
      "result-storage-https://example.com/" fresh_store
    = Some (s', [Invoke],
            Throw (PlainError "TypeError"
                     "Cannot read properties of undefined (reading 'message')"))
    /\ totalErrors (errorStats s') = 1.
Proof.
  destruct (executeWithErrorHandling_throws_for_nullish
              rejects_with_undefined retry_3_1000
              "result-storage-https://example.com/" fresh_store 4)
    as (s' & events & r & Hrun & _ & Hthrown).
  - vm_compute. lia.
  - destruct (Hthrown (attempts_set "result-storage-https://example.com/" 1 fresh_store)
                [Invoke] Nullish eq_refl) as (_ & _ & Htotal & Hr & _).
    exists s'. split; [| exact Htotal].
    rewrite Hrun. subst r.
    vm_compute in Hrun. injection Hrun as _ Hev. rewrite <- Hev. reflexivity.
Defined.

(** ** Claims on the URL filter *)

Section FilterFacts.
Variable minimatch : string -> string -> Completion bool.
Variable URL_parse : string -> option URL.t.
Implicit Types (this : UrlFilter) (url : string) (depth : Z).

(** The two pattern tests catch what the matcher throws. *)
Lemma matchesExcludePatterns_total this url :
  exists b, matchesExcludePatterns minimatch this url = Normal b.
Proof.
  unfold matchesExcludePatterns, try_catch.
  destruct (Array_some _ (excludeGlobs this)); eauto.
Qed.

Lemma matchesIncludePatterns_total this url :
  exists b, matchesIncludePatterns minimatch this url = Normal b.
Proof.
  unfold matchesIncludePatterns, try_catch.
  destruct (Array_some _ (includeGlobs this)); eauto.
Qed.

Lemma shouldCrawl_total this url depth :
  exists decision, shouldCrawl minimatch this url depth = Normal decision.
Proof.
  unfold shouldCrawl.
  destruct (maxDepth this <=? depth); [eauto |].
  destruct (matchesExcludePatterns_total this url) as [[|] ->]; simpl; [eauto |].
  destruct (matchesIncludePatterns_total this url) as [[|] ->]; simpl; eauto.
Qed.

Lemma normalizeUrl_total url :
  exists out, normalizeUrl URL_parse url = Normal out.
Proof.
  unfold normalizeUrl, new_URL. destruct (URL_parse url); simpl; eauto.
Qed.


Lemma matches_any_iff_exists url globs :
  (forall pattern, pattern ∈ globs -> exists b, minimatch url pattern = Normal b) ->
  matches_any minimatch url globs
  <-> exists pattern, pattern ∈ globs /\ minimatch url pattern = Normal true.
Proof.
  unfold matches_any. induction globs as [| g globs IH]; intros Hclean; simpl.
  - split; [discriminate |]. intros (pattern & Hin & _). inversion Hin.
  - destruct (Hclean g) as [b Hb]; [left |]. rewrite Hb.
    assert (Hrest : forall pattern, pattern ∈ globs ->
                                    exists b, minimatch url pattern = Normal b).
    { intros pattern Hin. apply Hclean. right. exact Hin. }
    destruct b.
    + split; [| reflexivity]. intros _. exists g. split; [left | exact Hb].
    + rewrite (IH Hrest). split.
      * intros (pattern & Hin & Hm). exists pattern. split; [right; exact Hin | exact Hm].
      * intros (pattern & Hin & Hm). apply elem_of_cons in Hin as [-> | Hin].
        -- rewrite Hb in Hm. discriminate.
        -- exists pattern. split; assumption.
Qed.
End FilterFacts.

(** C3. At a depth that has reached [maxDepth], [shouldCrawl] denies with
    depth_exceeded whatever the URL and whatever the include and exclude
    patterns are (they are not even consulted). *)
Theorem shouldCrawl_depth_exceeded
    (minimatch : string -> string -> Completion bool) (this : UrlFilter)
    (url : string) (depth : Z) :
  maxDepth this <= depth ->
  shouldCrawl minimatch this url depth
  = Normal (FilterDecision.mk false "depth_exceeded").
Proof.
  intros Hdepth. unfold shouldCrawl.
  destruct (maxDepth this <=? depth) eqn:Hle; [reflexivity |].
  apply Z.leb_gt in Hle. lia.
Qed.

Lemma shouldCrawl_depth_exceeded_witness :
  Forall (fun pattern =>
            Reference.minimatch "https://example.com/docs/intro" pattern = Normal true)
         (includeGlobs docs_filter)
  /\ shouldCrawl Reference.minimatch docs_filter "https://example.com/docs/intro" 2
     = Normal (FilterDecision.mk false "depth_exceeded").
Proof.
  split.
  - repeat constructor.
  - apply (shouldCrawl_depth_exceeded Reference.minimatch docs_filter
             "https://example.com/docs/intro" 2).
    vm_compute. discriminate.
Defined.







(** C6, as the specification states it, fails: the result is the
    serialisation of the parsed URL, which the parser has canonicalised. A
    URL without fragment written with an upper-case scheme and host and an
    empty path comes back changed. *)
Lemma normalizeUrl_canonicalizes :
  Reference.URL_parse "HTTP://EXAMPLE.COM" <> None
  /\ strip_fragment_spec "HTTP://EXAMPLE.COM" = "HTTP://EXAMPLE.COM"
  /\ normalizeUrl Reference.URL_parse "HTTP://EXAMPLE.COM" = Normal "http://example.com/"
  /\ normalizeUrl Reference.URL_parse "HTTP://EXAMPLE.COM"
     <> Normal (strip_fragment_spec "HTTP://EXAMPLE.COM").
Proof.
  repeat split; try reflexivity; vm_compute; discriminate.
Qed.

Section StripFragment.
Lemma append_empty_r (a : string) : a +:+ "" = a.
Proof.
  induction a as [| c a IH]; [reflexivity |].
  change (String c (a +:+ "") = String c a). f_equal. exact IH.
Qed.

(** Serialising after the fragment was cleared leaves the fragment out. *)
Lemma toString_set_hash_empty (u : URL.t) :
  URL.toString (URL.set_hash_empty u) = URL.without_fragment u.
Proof.
  unfold URL.toString.
  change (URL.hash (URL.set_hash_empty u)) with "".
  change (URL.without_fragment (URL.set_hash_empty u)) with (URL.without_fragment u).
  apply append_empty_r.
Qed.

(** The text before the first hash sign of [a ++ "#" ++ f] is [a] when [a]
    holds no hash sign. *)
Lemma split_at_hash_append (a suffix : string) :
  Reference.string_forallb (fun c => negb (Reference.is_char "#" c)) a = true ->
  suffix = "" \/ (exists f, suffix = "#" +:+ f) ->
  fst (Reference.split_at "#" (a +:+ suffix)) = a.
Proof.
  intros Ha Hs. induction a as [| c a IH].
  - destruct Hs as [-> | [f ->]]; reflexivity.
  - change (String c a +:+ suffix) with (String c (a +:+ suffix)).
    cbn [Reference.string_forallb] in Ha.
    apply andb_prop in Ha as [Hc Ha].
    cbn [Reference.split_at].
    destruct (Reference.is_char "#" c); [discriminate |].
    specialize (IH Ha).
    destruct (Reference.split_at "#" (a +:+ suffix)) as [before after].
    cbn [fst] in *. subst before. reflexivity.
Qed.
End StripFragment.

(** C6, amended. For a URL that parses, [normalizeUrl] gives the
    serialisation of the parsed URL (its href, in the parser's canonical
    form) with only the fragment removed: scheme, authority, path and query
    of the parsed URL are serialised as they are, and what follows the
    first hash sign of the href is dropped together with it. *)
Theorem normalizeUrl_href_without_fragment
    (URL_parse : string -> option URL.t) (url : string) (parsed : URL.t) :
  URL_parse url = Some parsed ->
  no_hash_before_fragment parsed = true ->
  normalizeUrl URL_parse url = Normal (strip_fragment_spec (URL.toString parsed))
  /\ normalizeUrl URL_parse url = Normal (URL.without_fragment parsed)
  /\ URL.toString parsed = URL.without_fragment parsed +:+ URL.hash parsed.
Proof.
  intros Hparse Hwf.
  assert (Hnorm : normalizeUrl URL_parse url = Normal (URL.without_fragment parsed)).
  { unfold normalizeUrl, new_URL. rewrite Hparse.
    cbn [try_catch mbind Completion_bind]. rewrite toString_set_hash_empty.
    reflexivity. }
  split; [| split; [exact Hnorm | reflexivity]].
  rewrite Hnorm. f_equal. symmetry.
  unfold strip_fragment_spec, URL.toString.
  apply split_at_hash_append; [exact Hwf |].
  unfold URL.hash. destruct (URL.fragment parsed) as [f |]; [right; eauto | left; reflexivity].
Qed.

Lemma normalizeUrl_href_without_fragment_witness :
  normalizeUrl Reference.URL_parse "https://Example.com/docs/a?x=1#top"
  = Normal "https://example.com/docs/a?x=1".
Proof.
  refine (proj1 (proj2 (normalizeUrl_href_without_fragment Reference.URL_parse
            "https://Example.com/docs/a?x=1#top"
            (URL.mk "https" (Some "example.com") "/docs/a" (Some "x=1") (Some "top"))
            _ _))).
  - reflexivity.
  - reflexivity.
Defined.

(** ** Claims on the recovery actions *)

Lemma categorizeError_cases (toLowerCase : string -> string) (error : JsError) :
  categorizeError toLowerCase error = ErrorCategory.NETWORK
  \/ categorizeError toLowerCase error = ErrorCategory.TIMEOUT
  \/ categorizeError toLowerCase error = ErrorCategory.RATE_LIMIT
  \/ categorizeError toLowerCase error = ErrorCategory.UNKNOWN.
Proof.
  unfold categorizeError. cbv zeta.
  repeat match goal with
         | |- context [if ?b then _ else _] => destruct b
         end; auto.
Qed.

(** C8. [categorizeError] returns network, timeout, rate_limit or unknown,
    and so never memory, parsing, extraction, processing or validation.
    Hence [handleFailedRequestWithRecovery], which classifies the terminal
    error with it, never takes the memory-cleanup branch. *)
Theorem categorizeError_never_memory
    (toLowerCase : string -> string) (error : JsError) :
  (categorizeError toLowerCase error ∈
     [ErrorCategory.NETWORK; ErrorCategory.TIMEOUT; ErrorCategory.RATE_LIMIT;
      ErrorCategory.UNKNOWN])
  /\ (categorizeError toLowerCase error ∉
     [ErrorCategory.MEMORY; ErrorCategory.PARSING; ErrorCategory.EXTRACTION;
      ErrorCategory.PROCESSING; ErrorCategory.VALIDATION])
  /\ (forall this request_url request_retryCount now,
       MemoryCleanup ∉
         snd (handleFailedRequestWithRecovery toLowerCase this request_url
                request_retryCount error now)).
Proof.
  pose proof (categorizeError_cases toLowerCase error) as Hc.
  split; [| split].
  - rewrite !elem_of_cons. tauto.
  - intros Hin. apply list_elem_of_In in Hin. simpl in Hin.
    destruct Hc as [Hc | [Hc | [Hc | Hc]]]; rewrite Hc in Hin;
      intuition discriminate.
  - intros this request_url request_retryCount now.
    unfold handleFailedRequestWithRecovery. cbv zeta.
    assert (Hmem : String.eqb (categorizeError toLowerCase error) ErrorCategory.MEMORY
                   = false).
    { destruct Hc as [Hc | [Hc | [Hc | Hc]]]; rewrite Hc; reflexivity. }
    rewrite Hmem.
    match goal with
    | |- context [if ?b then _ else _] => destruct b
    end; cbn [snd app]; intros Hin; apply list_elem_of_In in Hin; simpl in Hin;
      intuition discriminate.
Qed.

(** Without a proxy pool, [rotateProxy] changes nothing. *)
Lemma rotateProxy_no_pool (this : WebCrawler) :
  options_proxyConfiguration this = None
  \/ (exists l, options_proxyConfiguration this = Some l
                /\ read_proxyUrls (heap this) l = None) ->
  rotateProxy this = this.
Proof.
  unfold rotateProxy. intros [-> | (l & -> & ->)]; reflexivity.
Qed.

(** As long as the browser-layer crawler does not hold the pool object
    itself, rotation is the round robin of the specification: after [k]
    rotations over a pool of [n] proxies the index is [(i + k) mod n], and
    the pool is intact. *)
Lemma rotateProxy_iter_index (this : WebCrawler) l urls i (k : nat) :
  unshared this l ->
  options_proxyConfiguration this = Some l ->
  read_proxyUrls (heap this) l = Some urls ->
  currentProxyIndex this = Int i ->
  0 <= i < Z.of_nat (length urls) ->
  let this' := Nat.iter k rotateProxy this in
  crawler this' = crawler this
  /\ options_proxyConfiguration this' = Some l
  /\ read_proxyUrls (heap this') l = Some urls
  /\ currentProxyIndex this' = Int ((i + Z.of_nat k) mod Z.of_nat (length urls)).
Proof.
  intros Hu Ho Hp Hi Hrange.
  induction k as [| k IH]; cbv zeta.
  - change (Nat.iter 0 rotateProxy this) with this.
    split; [reflexivity | split; [exact Ho | split; [exact Hp |]]].
    rewrite Hi. f_equal.
    rewrite Z.add_0_r, Z.mod_small; [reflexivity | exact Hrange].
  - cbv zeta in IH. destruct IH as (Hc' & Ho' & Hp' & Hi').
    rewrite Nat.iter_succ.
    set (this_k := Nat.iter k rotateProxy this) in *.
    unfold rotateProxy. rewrite Ho', Hp', Hi'.
    cbn [crawler options_proxyConfiguration heap currentProxyIndex].
    split; [exact Hc' | split; [reflexivity | split]].
    + destruct (crawler this_k) as [c |] eqn:Hc; [| exact Hp'].
      destruct (crawler_proxyConfiguration c) as [l' |] eqn:Hl'; [| exact Hp'].
      unfold read_proxyUrls. rewrite lookup_insert_ne; [exact Hp' |].
      apply (Hu c l'); [congruence | exact Hl'].
    + unfold succ_rem.
      destruct (Z.of_nat (length urls) =? 0) eqn:Hz; [apply Z.eqb_eq in Hz; lia |].
      f_equal.
      assert (Hm : 0 <= (i + Z.of_nat k) mod Z.of_nat (length urls))
        by (apply Z.mod_pos_bound; lia).
      rewrite Z.rem_mod_nonneg by lia.
      rewrite Zplus_mod_idemp_l. f_equal. lia.
Qed.

Lemma rotateProxy_full_cycle (this : WebCrawler) l urls i :
  unshared this l ->
  options_proxyConfiguration this = Some l ->
  read_proxyUrls (heap this) l = Some urls ->
  currentProxyIndex this = Int i ->
  0 <= i < Z.of_nat (length urls) ->
  currentProxyIndex (Nat.iter (length urls) rotateProxy this) = Int i.
Proof.
  intros Hu Ho Hp Hi Hrange.
  destruct (rotateProxy_iter_index this l urls i (length urls) Hu Ho Hp Hi Hrange)
    as (_ & _ & _ & ->).
  f_equal.
  rewrite <- (Z.mul_1_l (Z.of_nat (length urls))) at 1.
  rewrite Z.mod_add by lia. apply Z.mod_small. exact Hrange.
Qed.

(** What a rotation leaves with the browser layer: the pool's URL at the new
    index, alone. *)
Lemma rotateProxy_selects (this : WebCrawler) c l l' urls :
  crawler this = Some c ->
  crawler_proxyConfiguration c = Some l' ->
  options_proxyConfiguration this = Some l ->
  read_proxyUrls (heap this) l = Some urls ->
  active_proxyUrls (rotateProxy this)
  = Some [Array_get urls (succ_rem (currentProxyIndex this) (Z.of_nat (length urls)))].
Proof.
  intros Hc Hl' Ho Hp. unfold rotateProxy, active_proxyUrls.
  rewrite Ho, Hp, Hc, Hl'. cbn [crawler heap]. cbn. rewrite Hl'. cbn.
  unfold read_proxyUrls. rewrite lookup_insert_eq. reflexivity.
Qed.

(** With two separate objects the three rotations select [b], [c], [a]. *)
Lemma rotateProxy_separate_objects :
  unshared separate_abc 1%positive
  /\ active_proxyUrls (rotateProxy separate_abc) = Some [Some "b"]
  /\ active_proxyUrls (rotateProxy (rotateProxy separate_abc)) = Some [Some "c"]
  /\ active_proxyUrls (rotateProxy (rotateProxy (rotateProxy separate_abc)))
     = Some [Some "a"]
  /\ currentProxyIndex (rotateProxy (rotateProxy (rotateProxy separate_abc))) = Int 0.
Proof.
  split.
  - intros c l' Hc Hl'. injection Hc as <-. injection Hl' as <-. discriminate.
  - repeat split; vm_compute; reflexivity.
Qed.

(** C9. For a crawler created with the pool [a], [b], [c] and initialised,
    the browser-layer crawler holds the very proxy configuration object of
    the options. The first rotation selects [b] and writes the one-element
    list [b] into that object, which is the pool itself; the second and the
    third rotation therefore run over a pool of length 1 and select [b]
    again (index 1, then 0, then 0), not [c] and [a]. Before [initialize]
    the same three rotations move the index through 1, 2, 0. *)
Theorem rotateProxy_overwrites_shared_pool :
  currentProxyIndex crawler_abc = Int 0
  /\ read_proxyUrls (heap crawler_abc) 1%positive
     = Some [Some "a"; Some "b"; Some "c"]
  /\ active_proxyUrls (rotateProxy crawler_abc) = Some [Some "b"]
  /\ read_proxyUrls (heap (rotateProxy crawler_abc)) 1%positive = Some [Some "b"]
  /\ active_proxyUrls (rotateProxy (rotateProxy crawler_abc)) = Some [Some "b"]
  /\ active_proxyUrls (rotateProxy (rotateProxy (rotateProxy crawler_abc)))
     = Some [Some "b"]
  /\ map currentProxyIndex
       [rotateProxy crawler_abc;
        rotateProxy (rotateProxy crawler_abc);
        rotateProxy (rotateProxy (rotateProxy crawler_abc))]
     = [Int 1; Int 0; Int 0]
  /\ map currentProxyIndex
       [rotateProxy created_abc;
        rotateProxy (rotateProxy created_abc);
        rotateProxy (rotateProxy (rotateProxy created_abc))]
     = [Int 1; Int 2; Int 0].
Proof.
  repeat split; vm_compute; reflexivity.
Qed.

(** In general: when the browser-layer crawler holds the options' proxy
    configuration object, one rotation leaves a pool of exactly one URL. *)
Lemma rotateProxy_shared_collapses (this : WebCrawler) c l urls :
  crawler this = Some c ->
  crawler_proxyConfiguration c = Some l ->
  options_proxyConfiguration this = Some l ->
  read_proxyUrls (heap this) l = Some urls ->
  read_proxyUrls (heap (rotateProxy this)) l
  = Some [Array_get urls (succ_rem (currentProxyIndex this) (Z.of_nat (length urls)))].
Proof.
  intros Hc Hl Ho Hp. unfold rotateProxy. rewrite Ho, Hp, Hc, Hl.
  cbn [heap]. unfold read_proxyUrls. rewrite lookup_insert_eq. reflexivity.
Qed.

(** ** Claims on the statistics *)

(** *** Rounding to binary64 *)

Lemma pow2_pos e : (0 < pow2 e)%Q.
Proof. apply Qpower_0_lt. reflexivity. Qed.

Lemma pow2_add a b : (pow2 (a + b) == pow2 a * pow2 b)%Q.
Proof. apply Qpower_plus. discriminate. Qed.

Lemma pow2_nonneg_exponent n : 0 <= n -> (pow2 n == inject_Z (2 ^ n))%Q.
Proof. intros Hn. unfold pow2. rewrite Zpower_Qpower by exact Hn. reflexivity. Qed.

(** Rounding to an integer moves a number by at most one half. *)
Lemma round_half_even_error q :
  (Qabs (inject_Z (round_half_even q) - q) <= 1 # 2)%Q.
Proof.
  unfold round_half_even.
  pose proof (Qfloor_le q) as Hlo. pose proof (Qlt_floor q) as Hhi.
  rewrite inject_Z_plus in Hhi. change (inject_Z 1) with 1%Q in Hhi.
  apply Qabs_Qle_condition.
  destruct (q - inject_Z (Qfloor q) ?= 1 # 2)%Q eqn:Hc.
  - apply Qeq_alt in Hc.
    destruct (Z.even (Qfloor q)); rewrite ?inject_Z_plus;
      change (inject_Z 1) with 1%Q; lra.
  - apply Qlt_alt in Hc. lra.
  - apply Qgt_alt in Hc. rewrite inject_Z_plus. change (inject_Z 1) with 1%Q. lra.
Qed.

Lemma floor_log2_le q : (0 < q)%Q -> (pow2 (floor_log2 q) <= q)%Q.
Proof.
  intros Hq. unfold floor_log2.
  destruct (Qle_bool _ q) eqn:Hle; [apply Qle_bool_iff; exact Hle |].
  clear Hle. destruct q as [a b]. cbn [Qnum Qden].
  assert (Ha : 0 < a) by (unfold Qlt in Hq; cbn in Hq; lia).
  destruct (Z.log2_spec a Ha) as [Hla _].
  destruct (Z.log2_spec (Z.pos b) ltac:(lia)) as [_ Hlb].
  pose proof (Z.log2_nonneg a) as Hna.
  pose proof (Z.log2_nonneg (Z.pos b)) as Hnb.
  set (la := Z.log2 a) in *. set (lb := Z.log2 (Z.pos b)) in *.
  assert (Hsplit : (pow2 la == pow2 (la - lb - 1) * pow2 (lb + 1))%Q).
  { rewrite <- pow2_add. replace (la - lb - 1 + (lb + 1)) with la by lia. reflexivity. }
  rewrite (pow2_nonneg_exponent la) in Hsplit by lia.
  rewrite (pow2_nonneg_exponent (lb + 1)) in Hsplit by lia.
  pose proof (pow2_pos (la - lb - 1)) as Hp.
  set (c := pow2 (la - lb - 1)) in *.
  rewrite (Qmake_Qdiv a b).
  assert (Hb : (0 < inject_Z (Z.pos b))%Q) by (unfold Qlt; cbn; lia).
  apply Qle_shift_div_l; [exact Hb |].
  assert (H1 : (inject_Z (2 ^ la) <= inject_Z a)%Q) by (rewrite <- Zle_Qle; exact Hla).
  assert (H2 : (inject_Z (Z.pos b) <= inject_Z (2 ^ (lb + 1)))%Q)
    by (rewrite <- Zle_Qle; unfold Z.succ in Hlb; lia).
  assert (H3 : (c * inject_Z (Z.pos b) <= c * inject_Z (2 ^ (lb + 1)))%Q).
  { apply Qmult_le_l; [exact Hp | exact H2]. }
  lra.
Qed.

Lemma floor_log2_lt q : (0 < q)%Q -> (q < pow2 (floor_log2 q + 1))%Q.
Proof.
  intros Hq. unfold floor_log2.
  destruct (Qle_bool _ q) eqn:Hle.
  2: { replace (Z.log2 (Qnum q) - Z.log2 (Z.pos (Qden q)) - 1 + 1)
         with (Z.log2 (Qnum q) - Z.log2 (Z.pos (Qden q))) by lia.
       apply Qnot_le_lt. intros H. apply Qle_bool_iff in H. congruence. }
  clear Hle. destruct q as [a b]. cbn [Qnum Qden].
  assert (Ha : 0 < a) by (unfold Qlt in Hq; cbn in Hq; lia).
  destruct (Z.log2_spec a Ha) as [_ Hla].
  destruct (Z.log2_spec (Z.pos b) ltac:(lia)) as [Hlb _].
  pose proof (Z.log2_nonneg a) as Hna.
  pose proof (Z.log2_nonneg (Z.pos b)) as Hnb.
  set (la := Z.log2 a) in *. set (lb := Z.log2 (Z.pos b)) in *.
  assert (Hsplit : (pow2 (la + 1) == pow2 (la - lb + 1) * pow2 lb)%Q).
  { rewrite <- pow2_add. replace (la - lb + 1 + lb) with (la + 1) by lia. reflexivity. }
  rewrite (pow2_nonneg_exponent (la + 1)) in Hsplit by lia.
  rewrite (pow2_nonneg_exponent lb) in Hsplit by lia.
  pose proof (pow2_pos (la - lb + 1)) as Hp.
  set (c := pow2 (la - lb + 1)) in *.
  rewrite (Qmake_Qdiv a b).
  assert (Hb : (0 < inject_Z (Z.pos b))%Q) by (unfold Qlt; cbn; lia).
  apply Qlt_shift_div_r; [exact Hb |].
  assert (H1 : (inject_Z a < inject_Z (2 ^ (la + 1)))%Q)
    by (rewrite <- Zlt_Qlt; unfold Z.succ in Hla; lia).
  assert (H2 : (inject_Z (2 ^ lb) <= inject_Z (Z.pos b))%Q)
    by (rewrite <- Zle_Qle; lia).
  assert (H3 : (c * inject_Z (2 ^ lb) <= c * inject_Z (Z.pos b))%Q).
  { apply Qmult_le_l; [exact Hp | exact H2]. }
  lra.
Qed.

(** Known binary64 values: 0.1 is [0x1.999999999999ap-4], one third is
    [0x1.5555555555555p-2], and the integers above [2 ^ 53] are rounded to
    even multiples. *)
Example binary64_values :
  (binary64 (1 # 10) == 3602879701896397 # 36028797018963968)%Q
  /\ (binary64 (1 # 3) == 6004799503160661 # 18014398509481984)%Q
  /\ (binary64 (inject_Z (2 ^ 53 + 1)) == inject_Z (2 ^ 53))%Q
  /\ (binary64 (inject_Z (2 ^ 53 + 3)) == inject_Z (2 ^ 53 + 4))%Q
  /\ (binary64 (- (1 # 10)) == - binary64 (1 # 10))%Q.
Proof. repeat split; vm_compute; reflexivity. Qed.

Lemma round_half_even_ext q q' : (q == q')%Q -> round_half_even q = round_half_even q'.
Proof.
  intros H. unfold round_half_even.
  rewrite (Qfloor_comp q q' H).
  assert (Hc : (q - inject_Z (Qfloor q') ?= 1 # 2)%Q = (q' - inject_Z (Qfloor q') ?= 1 # 2)%Q).
  { apply Qcompare_comp; [rewrite H; reflexivity | reflexivity]. }
  rewrite Hc. reflexivity.
Qed.

Lemma round_half_even_integer (n : Z) : round_half_even (inject_Z n) = n.
Proof.
  unfold round_half_even. rewrite Qfloor_Z.
  assert (Hlt : (inject_Z n - inject_Z n < 1 # 2)%Q) by lra.
  assert (Hc : (inject_Z n - inject_Z n ?= 1 # 2)%Q = Lt) by (apply Qlt_alt; exact Hlt).
  rewrite Hc. reflexivity.
Qed.

(** The rounded number depends on the value of the rational only. *)
Lemma binary64_ext x y : (x == y)%Q -> binary64 x = binary64 y.
Proof. intros H. unfold binary64. rewrite (Qred_complete x y H). reflexivity. Qed.

(** One rounding moves a number by at most [2 ^ -53] of its magnitude (half
    a unit in the last place), or by [2 ^ -1075] among the subnormal
    numbers. *)
Lemma binary64_error x :
  (Qabs (binary64 x - x) <= Qabs x * pow2 (-53) + pow2 (-1075))%Q.
Proof.
  unfold binary64.
  pose proof (Qred_correct x) as Hred.
  set (x' := Qred x) in *.
  pose proof (pow2_pos (-53)) as Hu. pose proof (pow2_pos (-1075)) as Heta.
  assert (H52 : (pow2 (-52) == 2 * pow2 (-53))%Q) by reflexivity.
  assert (H1074 : (pow2 (-1074) == 2 * pow2 (-1075))%Q) by reflexivity.
  set (u := pow2 (-53)) in *. set (eta := pow2 (-1075)) in *.
  clearbody u eta.
  pose proof (Qabs_nonneg x) as Hax.
  assert (Hxu : (0 <= Qabs x * u)%Q) by (apply Qmult_le_0_compat; lra).
  destruct (Qeq_bool x' 0) eqn:Hz.
  - apply Qeq_bool_iff in Hz. rewrite Hz in Hred.
    assert (H0 : (0 - x == 0)%Q) by lra. rewrite H0.
    change (Qabs 0) with 0%Q. lra.
  - apply Qeq_bool_neq in Hz.
    assert (Hpos : (0 < Qabs x')%Q).
    { destruct (Qlt_le_dec 0 (Qabs x')) as [H | H]; [exact H |].
      exfalso. apply Hz. apply Qabs_Qle_condition in H. lra. }
    pose proof (floor_log2_le _ Hpos) as Hlog.
    set (L := floor_log2 (Qabs x')) in *.
    set (e := Z.max (L - 52) (-1074)).
    pose proof (pow2_pos e) as He.
    pose proof (round_half_even_error (x' / pow2 e)) as Hr.
    set (m := inject_Z (round_half_even (x' / pow2 e))) in *.
    assert (Hmax : (pow2 e <= pow2 (L - 52) + pow2 (-1074))%Q).
    { pose proof (pow2_pos (L - 52)). pose proof (pow2_pos (-1074)).
      unfold e. destruct (Z.max_spec (L - 52) (-1074)) as [[_ ->] | [_ ->]]; lra. }
    assert (HL : (pow2 (L - 52) == pow2 L * pow2 (-52))%Q).
    { rewrite <- pow2_add. reflexivity. }
    assert (Habs : (Qabs x' == Qabs x)%Q) by (rewrite Hred; reflexivity).
    set (pe := pow2 e) in *. set (pL := pow2 L) in *.
    set (pL52 := pow2 (L - 52)) in *. set (p52 := pow2 (-52)) in *.
    set (p1074 := pow2 (-1074)) in *.
    clearbody pe pL pL52 p52 p1074.
    assert (Hscale : (m * pe - x == (m - x' / pe) * pe)%Q).
    { rewrite <- Hred. field. lra. }
    rewrite Hscale, Qabs_Qmult, (Qabs_pos pe) by lra.
    set (d := Qabs (m - x' / pe)) in *.
    pose proof (Qabs_nonneg (m - x' / pe)) as Hd. fold d in Hd.
    clearbody d.
    assert (H2 : (d * pe <= (1 # 2) * pe)%Q).
    { apply Qmult_le_compat_r; lra. }
    assert (H3 : (pL * u <= Qabs x * u)%Q).
    { apply Qmult_le_compat_r; lra. }
    rewrite H52 in HL.
    lra.
Qed.

(** A number that binary64 represents is left as it is. *)
Lemma binary64_exact (x : Q) (m e : Z) :
  (x == inject_Z m * pow2 e)%Q -> -1074 <= e -> Z.abs m < 2 ^ 53 ->
  (binary64 x == x)%Q.
Proof.
  intros Hx He Hm. unfold binary64.
  pose proof (Qred_correct x) as Hred.
  set (x' := Qred x) in *.
  destruct (Qeq_bool x' 0) eqn:Hz.
  - apply Qeq_bool_iff in Hz. rewrite <- Hred, Hz. reflexivity.
  - apply Qeq_bool_neq in Hz.
    assert (Hpos : (0 < Qabs x')%Q).
    { destruct (Qlt_le_dec 0 (Qabs x')) as [H | H]; [exact H |].
      exfalso. apply Hz. apply Qabs_Qle_condition in H. lra. }
    pose proof (floor_log2_le _ Hpos) as Hlog.
    set (L := floor_log2 (Qabs x')) in *.
    assert (HL : L - 52 <= e).
    { assert (Habs : (Qabs x' == inject_Z (Z.abs m) * pow2 e)%Q).
      { rewrite Hred, Hx, Qabs_Qmult, (Qabs_pos (pow2 e)) by (pose proof (pow2_pos e); lra).
        reflexivity. }
      assert (Hlt : (pow2 L < pow2 (53 + e))%Q).
      { rewrite pow2_add.
        assert (H53 : (inject_Z (Z.abs m) < pow2 53)%Q).
        { rewrite (pow2_nonneg_exponent 53) by lia. rewrite <- Zlt_Qlt. exact Hm. }
        pose proof (pow2_pos e) as Hpe.
        assert (H2 : (inject_Z (Z.abs m) * pow2 e < pow2 53 * pow2 e)%Q)
          by (apply Qmult_lt_compat_r; assumption).
        set (a := pow2 L) in *. set (b := pow2 53) in *. set (c := pow2 e) in *.
        set (d := inject_Z (Z.abs m)) in *. clearbody a b c d.
        rewrite Habs in Hlog. lra. }
      apply Qpower_lt_compat_l_inv in Hlt; [lia | reflexivity]. }
    set (E := Z.max (L - 52) (-1074)).
    assert (HE : E <= e) by (unfold E; lia).
    assert (Hn : (x' / pow2 E == inject_Z (m * 2 ^ (e - E)))%Q).
    { rewrite Hred, Hx, inject_Z_mult.
      rewrite <- (pow2_nonneg_exponent (e - E)) by lia.
      replace e with ((e - E) + E) at 1 by lia. rewrite pow2_add.
      pose proof (pow2_pos E). field. lra. }
    rewrite (round_half_even_ext _ _ Hn), round_half_even_integer, <- Hn.
    rewrite Hred. pose proof (pow2_pos E). field. lra.
Qed.

Lemma Math_round_spec q :
  (inject_Z (CrawlingStats.Math_round q) <= q + (1 # 2)
   /\ q + (1 # 2) < inject_Z (CrawlingStats.Math_round q) + 1)%Q.
Proof.
  unfold CrawlingStats.Math_round. split; [apply Qfloor_le |].
  pose proof (Qlt_floor (q + (1 # 2))) as H.
  rewrite inject_Z_plus in H. exact H.
Qed.

Lemma Math_round_unique (p : Q) (r : Z) :
  (inject_Z r - (1 # 2) <= p)%Q -> (p < inject_Z r + (1 # 2))%Q -> CrawlingStats.Math_round p = r.
Proof.
  intros Hlo Hhi. unfold CrawlingStats.Math_round.
  assert (H1 : r <= Qfloor (p + (1 # 2))).
  { rewrite <- (Qfloor_Z r). apply Qfloor_resp_le. lra. }
  assert (H2 : Qfloor (p + (1 # 2)) < r + 1).
  { rewrite Zlt_Qlt. pose proof (Qfloor_le (p + (1 # 2))).
    rewrite inject_Z_plus. change (inject_Z 1) with 1%Q. lra. }
  lia.
Qed.

(** The two roundings of [x * 100] for a quotient [x] that is not negative:
    the result is off by at most [201 * 2 ^ -53] of [x], and [2 ^ -100]. *)
Lemma percent_error (x : Q) :
  (0 <= x)%Q ->
  (Qabs (binary64 (binary64 x * 100) - 100 * x)
   <= (201 # 9007199254740992) * x + (1 # 1267650600228229401496703205376))%Q.
Proof.
  intros Hx.
  pose proof (binary64_error x) as E1.
  pose proof (binary64_error (binary64 x * 100)) as E2.
  set (y := binary64 x) in *. set (p := binary64 (y * 100)) in *. clearbody y p.
  assert (Hu : (pow2 (-53) == 1 # 9007199254740992)%Q) by reflexivity.
  assert (Heta : (pow2 (-1075)
                  <= 1 # 1606938044258990275541962092341162602522202993782792835301376)%Q).
  { unfold Qle. vm_compute. discriminate. }
  rewrite Hu in E1, E2. set (eta := pow2 (-1075)) in *. clearbody eta.
  rewrite (Qabs_pos x) in E1 by exact Hx.
  apply Qabs_Qle_condition in E1.
  assert (Hy : (Qabs (y * 100) <= 100 * (x + x * (1 # 9007199254740992) + eta))%Q).
  { apply Qabs_Qle_condition. lra. }
  apply Qabs_Qle_condition in E2. apply Qabs_Qle_condition.
  set (a := Qabs (y * 100)) in *. clearbody a.
  assert (Ha : (a * (1 # 9007199254740992)
                <= 100 * (x + x * (1 # 9007199254740992) + eta) * (1 # 9007199254740992))%Q).
  { apply Qmult_le_compat_r; [exact Hy | discriminate]. }
  lra.
Qed.

(** [Math.round((s / t) * 100)] is an integer within one half of the exact
    percentage: the error of the two roundings is smaller than the distance
    [1 / (2 * t)] that a percentage which is not a tie keeps from the next
    half. *)
Lemma percent_near (s t : Z) :
  0 <= s <= 2 ^ 44 -> 0 < t <= 2 ^ 53 ->
  Z.abs (2 * t * CrawlingStats.Math_round
                   (binary64 (binary64 (inject_Z s / inject_Z t) * inject_Z 100))
         - 200 * s) <= t.
Proof.
  intros Hs Ht.
  set (X := (inject_Z s / inject_Z t)%Q).
  assert (HT : (1 <= inject_Z t <= 9007199254740992)%Q).
  { split.
    - change 1%Q with (inject_Z 1). rewrite <- Zle_Qle. lia.
    - change 9007199254740992%Q with (inject_Z (2 ^ 53)). rewrite <- Zle_Qle. lia. }
  assert (HS : (0 <= inject_Z s <= 17592186044416)%Q).
  { split.
    - change 0%Q with (inject_Z 0). rewrite <- Zle_Qle. lia.
    - change 17592186044416%Q with (inject_Z (2 ^ 44)). rewrite <- Zle_Qle. lia. }
  assert (HXT : (X * inject_Z t == inject_Z s)%Q) by (unfold X; field; lra).
  assert (HX : (0 <= X)%Q).
  { unfold X. apply Qle_shift_div_l; lra. }
  pose proof (percent_error X HX) as E.
  change (inject_Z 100) with 100%Q.
  set (p := binary64 (binary64 X * 100)) in *. clearbody p.
  destruct (Math_round_spec p) as [R1 R2].
  set (r := CrawlingStats.Math_round p) in *. clearbody r.
  apply Qabs_Qle_condition in E. destruct E as [E1 E2].
  set (S := inject_Z s) in *. set (T := inject_Z t) in *. set (R := inject_Z r) in *.
  assert (M1 : (R * T <= (p + (1 # 2)) * T)%Q) by (apply Qmult_le_compat_r; lra).
  assert (M2 : ((p + (1 # 2)) * T < (R + 1) * T)%Q) by (apply Qmult_lt_compat_r; lra).
  assert (M3 : ((- ((201 # 9007199254740992) * X + (1 # 1267650600228229401496703205376))) * T
                <= (p - 100 * X) * T)%Q) by (apply Qmult_le_compat_r; lra).
  assert (M4 : ((p - 100 * X) * T
                <= ((201 # 9007199254740992) * X + (1 # 1267650600228229401496703205376)) * T)%Q)
    by (apply Qmult_le_compat_r; lra).
  assert (Q1 : (inject_Z (200 * s) < inject_Z (2 * t * r + t + 1))%Q).
  { rewrite !inject_Z_plus, !inject_Z_mult.
    fold S T R. change (inject_Z 200) with 200%Q. change (inject_Z 2) with 2%Q.
    change (inject_Z 1) with 1%Q. lra. }
  assert (Q2 : (inject_Z (2 * t * r) < inject_Z (200 * s + 1 + t))%Q).
  { rewrite !inject_Z_plus, !inject_Z_mult.
    fold S T R. change (inject_Z 200) with 200%Q. change (inject_Z 2) with 2%Q.
    change (inject_Z 1) with 1%Q. lra. }
  rewrite <- Zlt_Qlt in Q1, Q2. lia.
Qed.

(** A percentage of exactly 99.5 is computed as 99.5 and rounded up. *)
Lemma percent_tie_199_200 (s t : Z) :
  0 < t -> 199 * t = 200 * s ->
  CrawlingStats.Math_round
    (binary64 (binary64 (inject_Z s / inject_Z t) * inject_Z 100)) = 100.
Proof.
  intros Ht Heq.
  assert (HX : (inject_Z s / inject_Z t == 199 # 200)%Q).
  { assert (HT : (0 < inject_Z t)%Q)
      by (change 0%Q with (inject_Z 0); rewrite <- Zlt_Qlt; lia).
    apply Qmult_inj_r with (z := (inject_Z t * 200)%Q); [lra |].
    assert (HZ : (inject_Z (199 * t) == inject_Z (200 * s))%Q) by (rewrite Heq; reflexivity).
    rewrite !inject_Z_mult in HZ.
    change (inject_Z 199) with 199%Q in HZ. change (inject_Z 200) with 200%Q in HZ.
    assert (Hl : (inject_Z s / inject_Z t * (inject_Z t * 200) == 200 * inject_Z s)%Q)
      by (field; lra).
    rewrite Hl. lra. }
  rewrite (binary64_ext _ _ HX). vm_compute. reflexivity.
Qed.

(** All of it is computed as 1 and then as 100. *)
Lemma percent_full (t : Z) :
  0 < t ->
  CrawlingStats.Math_round
    (binary64 (binary64 (inject_Z t / inject_Z t) * inject_Z 100)) = 100.
Proof.
  intros Ht.
  assert (HX : (inject_Z t / inject_Z t == 1)%Q).
  { assert (HT : (0 < inject_Z t)%Q)
      by (change 0%Q with (inject_Z 0); rewrite <- Zlt_Qlt; lia).
    field. lra. }
  rewrite (binary64_ext _ _ HX). vm_compute. reflexivity.
Qed.

(** Rounding the quotient by 1000 to binary64 does not change the nearest
    integer. *)
Lemma Math_round_thousandth_binary64 (x : Z) :
  Z.abs x < 2 ^ 53 ->
  CrawlingStats.Math_round (binary64 (inject_Z x / inject_Z 1000))
  = CrawlingStats.Math_round (inject_Z x / inject_Z 1000).
Proof.
  intros Hx.
  set (X := (inject_Z x / inject_Z 1000)%Q).
  destruct (Math_round_spec X) as [R1 R2].
  set (r := CrawlingStats.Math_round X) in *.
  assert (HX : (X * 1000 == inject_Z x)%Q)
    by (unfold X; change (inject_Z 1000) with 1000%Q; field).
  assert (Hlo : 1000 * r <= x + 500).
  { rewrite Zle_Qle, inject_Z_plus, inject_Z_mult.
    change (inject_Z 1000) with 1000%Q. change (inject_Z 500) with 500%Q. lra. }
  assert (Hhi : x < 1000 * r + 500).
  { rewrite Zlt_Qlt, inject_Z_plus, inject_Z_mult.
    change (inject_Z 1000) with 1000%Q. change (inject_Z 500) with 500%Q. lra. }
  destruct (Z.eq_dec (x + 500) (1000 * r)) as [Htie | Hne].
  - assert (Hq : (inject_Z x + 500 == 1000 * inject_Z r)%Q).
    { change 500%Q with (inject_Z 500). change 1000%Q with (inject_Z 1000).
      rewrite <- inject_Z_plus, <- inject_Z_mult, Htie. reflexivity. }
    assert (Hexact : (binary64 X == X)%Q).
    { apply (binary64_exact X (2 * r + -1) (-1)); [| lia | lia].
      rewrite inject_Z_plus, inject_Z_mult.
      change (inject_Z 2) with 2%Q. change (inject_Z (-1)) with (-1)%Q.
      change (pow2 (-1)) with (1 # 2)%Q. lra. }
    unfold CrawlingStats.Math_round. apply Qfloor_comp. rewrite Hexact. reflexivity.
  - pose proof (binary64_error X) as E.
    assert (Hu : (pow2 (-53) == 1 # 9007199254740992)%Q) by reflexivity.
    assert (Heta : (pow2 (-1075)
                    <= 1 # 1606938044258990275541962092341162602522202993782792835301376)%Q).
    { unfold Qle. vm_compute. discriminate. }
    rewrite Hu in E. set (eta := pow2 (-1075)) in *. clearbody eta.
    apply Qabs_Qle_condition in E.
    assert (Hax : (Qabs X * 1000 <= 9007199254740991)%Q).
    { assert (Hx' : (inject_Z (Z.abs x) <= 9007199254740991)%Q).
      { change 9007199254740991%Q with (inject_Z (2 ^ 53 - 1)). rewrite <- Zle_Qle. lia. }
      assert (Habs : (Qabs X * 1000 == inject_Z (Z.abs x))%Q).
      { rewrite <- (Qabs_pos 1000) at 1 by discriminate.
        rewrite <- Qabs_Qmult, HX. reflexivity. }
      rewrite Habs. exact Hx'. }
    assert (Hx1 : (inject_Z (1000 * r) <= inject_Z (x + 499))%Q) by (rewrite <- Zle_Qle; lia).
    assert (Hx2 : (inject_Z (x + 1) <= inject_Z (1000 * r + 500))%Q) by (rewrite <- Zle_Qle; lia).
    rewrite inject_Z_plus, inject_Z_mult in Hx1.
    rewrite !inject_Z_plus, inject_Z_mult in Hx2.
    change (inject_Z 1000) with 1000%Q in Hx1, Hx2.
    change (inject_Z 499) with 499%Q in Hx1. change (inject_Z 500) with 500%Q in Hx2.
    change (inject_Z 1) with 1%Q in Hx2.
    set (a := Qabs X) in *. set (p := binary64 X) in *. clearbody a p.
    apply Math_round_unique; lra.
Qed.

(** *** The success rate *)

(** Two values of the code that exact arithmetic would round the other
    way: 23 of 40 is 57.5 percent and 29 of 200 is 14.5 percent, and the
    products computed in binary64 lie just below. *)
Example getSuccessRate_below_tie :
  CrawlingStats.getSuccessRate (CrawlingStats.mk 0 None 40 23 17 0 0 0 0 0 [] []) = 57
  /\ CrawlingStats.getSuccessRate (CrawlingStats.mk 0 None 200 29 171 0 0 0 0 0 [] []) = 14.
Proof. split; vm_compute; reflexivity. Qed.

(** C10, as the specification states it, fails on the value: the code
    rounds. For one success out of three requests it returns 33, which is
    not 1 / 3 * 100. *)
Lemma getSuccessRate_is_rounded :
  CrawlingStats.getSuccessRate one_of_three = 33
  /\ ~ (inject_Z (CrawlingStats.getSuccessRate one_of_three)
        == (inject_Z (CrawlingStats.successfulRequests one_of_three)
            / inject_Z (CrawlingStats.totalRequests one_of_three)) * inject_Z 100)%Q.
Proof.
  split; [vm_compute; reflexivity |].
  vm_compute. discriminate.
Qed.

(** C10, amended. [getSuccessRate] returns 0 when [totalRequests] is 0, in
    particular on a fresh [CrawlingStats] (the division is guarded, the
    result is a number); otherwise it returns
    [Math.round(successfulRequests / totalRequests * 100)] as binary64
    arithmetic computes it, which for counters in the stated range is an
    integer within one half of the exact percentage (at an exact half,
    either neighbour). *)
Theorem getSuccessRate_guarded_rounded (this : CrawlingStats.t) (now : Z) :
  CrawlingStats.getSuccessRate (CrawlingStats.new now) = 0
  /\ (CrawlingStats.totalRequests this = 0 -> CrawlingStats.getSuccessRate this = 0)
  /\ (0 < CrawlingStats.totalRequests this ->
      let s := CrawlingStats.successfulRequests this in
      let t := CrawlingStats.totalRequests this in
      let r := CrawlingStats.getSuccessRate this in
      r = CrawlingStats.Math_round
            (binary64 (binary64 (inject_Z s / inject_Z t) * inject_Z 100))
      /\ (0 <= s <= 2 ^ 44 -> t <= 2 ^ 53 -> Z.abs (2 * t * r - 200 * s) <= t)).
Proof.
  split; [reflexivity |]. split.
  - intros Ht. unfold CrawlingStats.getSuccessRate. rewrite Ht. reflexivity.
  - intros Ht. cbv zeta.
    assert (Heq : CrawlingStats.getSuccessRate this
                  = CrawlingStats.Math_round
                      (binary64
                         (binary64 (inject_Z (CrawlingStats.successfulRequests this)
                                    / inject_Z (CrawlingStats.totalRequests this))
                          * inject_Z 100))).
    { unfold CrawlingStats.getSuccessRate.
      destruct (CrawlingStats.totalRequests this =? 0) eqn:Hz;
        [apply Z.eqb_eq in Hz; lia | reflexivity]. }
    split; [exact Heq |].
    intros Hs Hmax. rewrite Heq. apply percent_near; lia.
Qed.

Lemma getSuccessRate_guarded_rounded_witness :
  CrawlingStats.getSuccessRate (CrawlingStats.new 0) = 0
  /\ CrawlingStats.getSuccessRate one_of_three = 33
  /\ Z.abs (2 * 3 * CrawlingStats.getSuccessRate one_of_three - 200 * 1) <= 3.
Proof.
  destruct (getSuccessRate_guarded_rounded one_of_three 0) as (Hfresh & _ & Hround).
  split; [exact Hfresh |].
  destruct (Hround ltac:(vm_compute; reflexivity)) as [Heq Hnear].
  split; [rewrite Heq; vm_compute; reflexivity |].
  apply Hnear; vm_compute; [split |]; discriminate.
Defined.

(** * Further properties of the code *)

(** ** The retry loop and the handler's tallies *)

Section RetryMore.
Context {W R : Type}.
Implicit Types (s : Store W) (operation : Operation W R) (config : RetryConfig).

Lemma executeWithRetry_loop_counter fuel :
  forall config operation operationId count s s' events (r : Completion R),
  executeWithRetry_loop fuel config operation operationId count s = Some (s', events, r) ->
  match r with
  | Normal _ => attempts s' !! operationId = None
  | Throw _ => attempts s' !! operationId = Some (count + invocations events)
  end.
Proof.
  induction fuel as [| fuel IH]; intros config operation operationId count s s' events r H;
    [discriminate |].
  rewrite executeWithRetry_loop_step in H.
  destruct (operation s) as [s1 [result | error]].
  - injection H as <- <- <-. simpl. apply lookup_delete_eq.
  - cbv zeta in H.
    destruct ((count + 1 <? maxRetries config) && error_retryable error).
    + destruct (executeWithRetry_loop fuel config operation operationId (count + 1)
                  (attempts_set operationId (count + 1) s1))
        as [[[s3 events3] r3] |] eqn:Hrec; [| discriminate].
      injection H as <- <- <-. specialize (IH _ _ _ _ _ _ _ _ Hrec).
      destruct r3; [exact IH |]. rewrite IH. cbn [invocations]. f_equal; lia.
    + injection H as <- <- <-. simpl. rewrite lookup_insert_eq. f_equal; lia.
Qed.

Lemma executeWithRetry_loop_schedule fuel :
  forall config operation operationId count s s' events (r : Completion R),
  executeWithRetry_loop fuel config operation operationId count s = Some (s', events, r) ->
  exists n, events = retry_schedule config count n
            /\ (1 <= n)%nat
            /\ Z.of_nat n <= Z.max 1 (maxRetries config - count).
Proof.
  induction fuel as [| fuel IH]; intros config operation operationId count s s' events r H;
    [discriminate |].
  rewrite executeWithRetry_loop_step in H.
  destruct (operation s) as [s1 [result | error]].
  - injection H as <- <- <-. exists 1%nat. split; [reflexivity | lia].
  - cbv zeta in H.
    destruct (count + 1 <? maxRetries config) eqn:Hlt; cbn [andb] in H.
    + destruct (error_retryable error).
      * destruct (executeWithRetry_loop fuel config operation operationId (count + 1)
                    (attempts_set operationId (count + 1) s1))
          as [[[s3 events3] r3] |] eqn:Hrec; [| discriminate].
        injection H as <- <- <-.
        destruct (IH _ _ _ _ _ _ _ _ Hrec) as (n & -> & Hn1 & Hn).
        apply Z.ltb_lt in Hlt.
        exists (S n). split; [| lia].
        destruct n as [| n]; [lia | reflexivity].
      * injection H as <- <- <-. exists 1%nat. split; [reflexivity | lia].
    + injection H as <- <- <-. exists 1%nat. split; [reflexivity | lia].
Qed.

Lemma sleeps_retry_schedule config (n : nat) : forall count,
  sleeps (retry_schedule config count n)
  = map (fun k => baseDelay config * (count + Z.of_nat k)) (seq 1 (n - 1)).
Proof.
  induction n as [| m IH]; intros count; [reflexivity |].
  destruct m as [| m]; [reflexivity |].
  change (retry_schedule config count (S (S m)))
    with (Invoke :: Sleep (baseDelay config * (count + 1))
            :: retry_schedule config (count + 1) (S m)).
  cbn [sleeps]. rewrite IH.
  replace (S (S m) - 1)%nat with (S m) by lia.
  replace (S m - 1)%nat with m by lia.
  cbn [seq map]. f_equal.
  rewrite <- (seq_shift m 1), map_map.
  apply map_ext. intros k. f_equal. lia.
Qed.

Lemma executeWithRetry_loop_keeps_errorStats fuel :
  forall config operation operationId count s s' events (r : Completion R),
  keeps_errorStats operation ->
  executeWithRetry_loop fuel config operation operationId count s = Some (s', events, r) ->
  errorStats s' = errorStats s.
Proof.
  induction fuel as [| fuel IH];
    intros config operation operationId count s s' events r Hkeep H; [discriminate |].
  rewrite executeWithRetry_loop_step in H.
  pose proof (Hkeep s) as Hs.
  destruct (operation s) as [s1 [result | error]]; simpl in Hs.
  - injection H as <- <- <-. exact Hs.
  - cbv zeta in H.
    destruct ((count + 1 <? maxRetries config) && error_retryable error).
    + destruct (executeWithRetry_loop fuel config operation operationId (count + 1)
                  (attempts_set operationId (count + 1) s1))
        as [[[s3 events3] r3] |] eqn:Hrec; [| discriminate].
      injection H as <- <- <-.
      rewrite (IH _ _ _ _ _ _ _ _ Hkeep Hrec). exact Hs.
    + injection H as <- <- <-. exact Hs.
Qed.

Lemma executeWithRetry_loop_keeps_attempts fuel :
  forall config operation operationId other count s s' events (r : Completion R),
  other <> operationId ->
  keeps_attempts operation other ->
  executeWithRetry_loop fuel config operation operationId count s = Some (s', events, r) ->
  attempts s' !! other = attempts s !! other.
Proof.
  induction fuel as [| fuel IH];
    intros config operation operationId other count s s' events r Hne Hkeep H;
    [discriminate |].
  rewrite executeWithRetry_loop_step in H.
  pose proof (Hkeep s) as Hs.
  destruct (operation s) as [s1 [result | error]]; simpl in Hs.
  - injection H as <- <- <-. simpl. rewrite lookup_delete_ne by congruence. exact Hs.
  - cbv zeta in H.
    destruct ((count + 1 <? maxRetries config) && error_retryable error).
    + destruct (executeWithRetry_loop fuel config operation operationId (count + 1)
                  (attempts_set operationId (count + 1) s1))
        as [[[s3 events3] r3] |] eqn:Hrec; [| discriminate].
      injection H as <- <- <-.
      rewrite (IH _ _ _ _ _ _ _ _ _ Hne Hkeep Hrec). simpl.
      rewrite lookup_insert_ne by congruence. exact Hs.
    + injection H as <- <- <-. simpl. rewrite lookup_insert_ne by congruence. exact Hs.
Qed.
End RetryMore.

(** X1. After [executeWithRetry] the counter of the operation is gone when
    the operation succeeded in the end (so a later failure under the same id
    is counted from 1 again), and it is the number of invocations when the
    error was rethrown. *)
Theorem executeWithRetry_stored_counter
    {W R : Type} (operation : Operation W R) config operationId fuel s s' events
    (r : Completion R) :
  executeWithRetry fuel config operation operationId s = Some (s', events, r) ->
  match r with
  | Normal _ => attempts s' !! operationId = None
  | Throw _ => attempts s' !! operationId = Some (invocations events)
  end.
Proof.
  intros H. apply executeWithRetry_loop_counter in H.
  destruct r; [exact H |]. rewrite H. f_equal; lia.
Qed.

Lemma executeWithRetry_stored_counter_witness :
  exists s', executeWithRetry 4 retry_3_1000
               (fails_then_succeeds 2 (CrawlerErr network_error)) "X" counting_store
             = Some (s', [Invoke; Sleep 1000; Invoke; Sleep 2000; Invoke], Normal "done")
             /\ attempts s' !! "X" = None.
Proof.
  eexists. split; [vm_compute; reflexivity |].
  refine (executeWithRetry_stored_counter
            (fails_then_succeeds 2 (CrawlerErr network_error)) retry_3_1000 "X" 4
            counting_store _ _ (Normal "done") _).
  vm_compute. reflexivity.
Defined.

(** X2. Whatever the operation does, one call of [executeWithRetry] invokes
    it [n] times, with [1 <= n <= max(1, maxRetries)]; an invocation and a
    sleep alternate, and the delays slept are [baseDelay * 1],
    [baseDelay * 2], ..., [baseDelay * (n - 1)] in this order: the k-th
    retry waits [baseDelay * k], linearly, with no cap and no jitter. *)
Theorem executeWithRetry_schedule
    {W R : Type} (operation : Operation W R) config operationId fuel s s' events
    (r : Completion R) :
  executeWithRetry fuel config operation operationId s = Some (s', events, r) ->
  exists n, events = retry_schedule config 0 n
            /\ (1 <= n)%nat
            /\ Z.of_nat n <= Z.max 1 (maxRetries config)
            /\ invocations events = Z.of_nat n
            /\ sleeps events
               = map (fun k => baseDelay config * Z.of_nat k) (seq 1 (n - 1)).
Proof.
  intros H. apply executeWithRetry_loop_schedule in H.
  destruct H as (n & He & Hn1 & Hn). exists n. rewrite Z.sub_0_r in Hn.
  repeat split; try assumption.
  - subst events. clear. generalize 0 as count.
    induction n as [| m IH]; intros count; [reflexivity |].
    destruct m as [| m]; [reflexivity |].
    change (retry_schedule config count (S (S m)))
      with (Invoke :: Sleep (baseDelay config * (count + 1))
              :: retry_schedule config (count + 1) (S m)).
    cbn [invocations]. rewrite IH. lia.
  - subst events. rewrite sleeps_retry_schedule. reflexivity.
Qed.

Lemma executeWithRetry_schedule_witness :
  exists n, [Invoke; Sleep 1000; Invoke; Sleep 2000; Invoke] = retry_schedule retry_3_1000 0 n
            /\ (1 <= n)%nat
            /\ Z.of_nat n <= Z.max 1 (maxRetries retry_3_1000)
            /\ invocations [Invoke; Sleep 1000; Invoke; Sleep 2000; Invoke] = Z.of_nat n
            /\ sleeps [Invoke; Sleep 1000; Invoke; Sleep 2000; Invoke]
               = map (fun k => baseDelay retry_3_1000 * Z.of_nat k) (seq 1 (n - 1)).
Proof.
  refine (executeWithRetry_schedule
            (always_fails (CrawlerErr network_error)) retry_3_1000 "X" 4 fresh_store
            _ _ (Throw (CrawlerErr network_error)) _).
  vm_compute. reflexivity.
Defined.

(** X3. A failure that is not a [CrawlerError] (an exception of the runtime
    or of a library) is never retried, whatever [maxRetries] is: the
    operation is invoked once, nothing is slept, and the error handler
    returns the skip sentinel and counts the error in [totalErrors] only. *)
Theorem executeWithRetry_plain_error_not_retried
    {W R : Type} (operation : Operation W R) config operationId s s1 name message fuel :
  operation s = (s1, Throw (PlainError name message)) ->
  executeWithRetry (S fuel) config operation operationId s
  = Some (attempts_set operationId 1 s1, [Invoke], Throw (PlainError name message))
  /\ exists s',
       executeWithErrorHandling (S fuel) config operation operationId s
       = Some (s', [Invoke],
               Normal (Skip {| recovered := false; skipped := true; reason := message |}))
       /\ totalErrors (errorStats s') = totalErrors (errorStats s1) + 1
       /\ errorsByCategory (errorStats s') = errorsByCategory (errorStats s1).
Proof.
  intros Hop.
  pose proof (executeWithRetry_fail_fast fuel config operation operationId s s1
                (PlainError name message) Hop eq_refl) as Hrun.
  split; [exact Hrun |].
  eexists. unfold executeWithErrorHandling. rewrite Hrun.
  split; [reflexivity |]. split; reflexivity.
Qed.

Lemma executeWithRetry_plain_error_not_retried_witness :
  executeWithRetry 4 (new_RetryConfig (Some 10) None)
    (always_fails (PlainError "TimeoutError" "Navigation timeout of 30000 ms exceeded"))
    "page-request-https://example.com/" fresh_store
  = Some (attempts_set "page-request-https://example.com/" 1 fresh_store, [Invoke],
          Throw (PlainError "TimeoutError" "Navigation timeout of 30000 ms exceeded")).
Proof.
  refine (proj1 (executeWithRetry_plain_error_not_retried
                   (always_fails (PlainError "TimeoutError"
                                    "Navigation timeout of 30000 ms exceeded"))
                   (new_RetryConfig (Some 10) None)
                   "page-request-https://example.com/" fresh_store fresh_store
                   "TimeoutError" "Navigation timeout of 30000 ms exceeded" 3 _)).
  reflexivity.
Defined.

(** X4. [executeWithRetry] writes only the counter of its own operation id:
    the counter of any other id, if the operation itself leaves it alone,
    is after the call what it was before. *)
Theorem executeWithRetry_other_counters
    {W R : Type} (operation : Operation W R) config operationId other fuel s s' events
    (r : Completion R) :
  other <> operationId ->
  keeps_attempts operation other ->
  executeWithRetry fuel config operation operationId s = Some (s', events, r) ->
  attempts s' !! other = attempts s !! other.
Proof.
  intros Hne Hkeep H.
  exact (executeWithRetry_loop_keeps_attempts fuel _ _ _ _ _ _ _ _ _ Hne Hkeep H).
Qed.

Lemma executeWithRetry_other_counters_witness :
  exists s' events (r : Completion unit),
    executeWithRetry 4 retry_3_1000 (always_fails (CrawlerErr network_error))
      "content-extraction-https://example.com/a"
      (attempts_set "content-extraction-https://example.com/b" 2 fresh_store)
    = Some (s', events, r)
    /\ attempts s' !! "content-extraction-https://example.com/b" = Some 2.
Proof.
  eexists _, _, _. split; [vm_compute; reflexivity |].
  rewrite (executeWithRetry_other_counters
             (always_fails (CrawlerErr network_error)) retry_3_1000
             "content-extraction-https://example.com/a"
             "content-extraction-https://example.com/b" 4
             (attempts_set "content-extraction-https://example.com/b" 2 fresh_store)
             _ _ _
             ltac:(discriminate) ltac:(intros s0; reflexivity)
             ltac:(vm_compute; reflexivity)).
  reflexivity.
Defined.

(** X5. For an operation that leaves the tallies alone, one call of
    [executeWithErrorHandling] adds exactly one to [totalErrors] when it
    returns the skip sentinel, however often it retried, and changes no
    tally when it returns the operation's value; [errorsBySeverity],
    [recoveredErrors] and [unrecoverableErrors] are never written. *)
Theorem executeWithErrorHandling_tally
    {W R : Type} (operation : Operation W R) config operationId fuel s s' events
    (r : HandlerResult R) :
  keeps_errorStats operation ->
  executeWithErrorHandling fuel config operation operationId s
    = Some (s', events, Normal r) ->
  match r with
  | Value _ => errorStats s' = errorStats s
  | Skip _ => totalErrors (errorStats s') = totalErrors (errorStats s) + 1
  end
  /\ errorsBySeverity (errorStats s') = errorsBySeverity (errorStats s)
  /\ recoveredErrors (errorStats s') = recoveredErrors (errorStats s)
  /\ unrecoverableErrors (errorStats s') = unrecoverableErrors (errorStats s).
Proof.
  intros Hkeep H. unfold executeWithErrorHandling in H.
  destruct (executeWithRetry fuel config operation operationId s)
    as [[[s1 events1] [result | error]] |] eqn:Hrun; [| | discriminate].
  - injection H as <- <- <-.
    rewrite (executeWithRetry_loop_keeps_errorStats _ _ _ _ _ _ _ _ _ Hkeep Hrun).
    repeat split.
  - destruct error as [error |]; cbn [read_message] in H; [| discriminate].
    injection H as <- <- <-.
    pose proof (executeWithRetry_loop_keeps_errorStats _ _ _ _ _ _ _ _ _ Hkeep Hrun) as He.
    simpl. rewrite He. repeat split.
Qed.

Lemma executeWithErrorHandling_tally_witness :
  exists s' events,
    executeWithErrorHandling 4 retry_3_1000
      (fails_then_succeeds 2 (CrawlerErr network_error)) "X" counting_store
    = Some (s', events, Normal (Value "done"))
    /\ errorStats s' = errorStats counting_store.
Proof.
  eexists _, _. split; [vm_compute; reflexivity |].
  refine (proj1 (executeWithErrorHandling_tally
                   (fails_then_succeeds 2 (CrawlerErr network_error)) retry_3_1000 "X" 4
                   counting_store _ _ (Value "done") _ _)).
  - intros s0. unfold fails_then_succeeds. destruct (world s0 <? 2)%nat; reflexivity.
  - vm_compute. reflexivity.
Defined.

Lemma updateErrorStats_consistent {W} (error : Thrown) (s : Store W) :
  stats_consistent (errorStats s) ->
  stats_consistent (errorStats (updateErrorStats error s)).
Proof.
  intros [Htotal Hcat]. split; simpl; [lia |].
  intros category n Hn.
  destruct error as [[name message | e] |].
  3: specialize (Hcat category n Hn); lia.
  - specialize (Hcat category n Hn). lia.
  - destruct (decide (CrawlerError.category e = category)) as [Heq | Hne].
    + subst category. rewrite lookup_insert_eq in Hn. injection Hn as <-.
      destruct (errorsByCategory (errorStats s) !! CrawlerError.category e)
        as [m |] eqn:Hm; simpl.
      * specialize (Hcat _ m Hm). lia.
      * lia.
    + rewrite lookup_insert_ne in Hn by exact Hne.
      specialize (Hcat category n Hn). lia.
Qed.

(** X6. The tallies of a new handler are consistent ([totalErrors] is not
    negative and every per-category count is positive and at most
    [totalErrors]), and every call of [executeWithErrorHandling] with an
    operation that leaves the tallies alone keeps them consistent. *)
Theorem executeWithErrorHandling_consistent
    {W R : Type} (operation : Operation W R) config operationId fuel s s' events
    (r : Completion (HandlerResult R)) :
  stats_consistent new_ErrorStats
  /\ (keeps_errorStats operation ->
      stats_consistent (errorStats s) ->
      executeWithErrorHandling fuel config operation operationId s = Some (s', events, r) ->
      stats_consistent (errorStats s')).
Proof.
  split.
  - split; [simpl; lia |]. intros category n Hn. simpl in Hn.
    rewrite lookup_empty in Hn. discriminate.
  - intros Hkeep Hinv H. unfold executeWithErrorHandling in H.
    destruct (executeWithRetry fuel config operation operationId s)
      as [[[s1 events1] [result | error]] |] eqn:Hrun; [| | discriminate].
    + injection H as <- <- <-.
      rewrite (executeWithRetry_loop_keeps_errorStats _ _ _ _ _ _ _ _ _ Hkeep Hrun).
      exact Hinv.
    + assert (Hs : errorStats s' = errorStats (updateErrorStats error s1)).
      { destruct (read_message error); injection H as <- <- <-; reflexivity. }
      rewrite Hs. apply updateErrorStats_consistent.
      rewrite (executeWithRetry_loop_keeps_errorStats _ _ _ _ _ _ _ _ _ Hkeep Hrun).
      exact Hinv.
Qed.

Lemma executeWithErrorHandling_consistent_witness :
  exists s' events r,
    executeWithErrorHandling 4 retry_3_1000 (always_fails (CrawlerErr validation_error))
      "X" fresh_store = Some (s', events, r)
    /\ stats_consistent (errorStats s').
Proof.
  eexists _, _, _. split; [vm_compute; reflexivity |].
  refine (proj2 (executeWithErrorHandling_consistent
                   (always_fails (CrawlerErr validation_error)) retry_3_1000 "X" 4
                   fresh_store _ _ _) _ _ _).
  - intros s0. reflexivity.
  - split; [simpl; lia |]. intros category n Hn. simpl in Hn.
    rewrite lookup_empty in Hn. discriminate.
  - vm_compute. reflexivity.
Defined.

(** ** Classification and the failed-request handler *)

(** X7. An error is retryable by the category [categorizeError] gives it
    exactly when the classifier recognised it: the three categories it can
    name are the three retryable ones, and only unknown is left. *)
Theorem categorizeError_retryable_iff_recognised
    (toLowerCase : string -> string) (error : JsError) severity context now :
  CrawlerError.retryable
    (CrawlerError.new (error_message error) (categorizeError toLowerCase error)
       severity context now) = true
  <-> categorizeError toLowerCase error <> ErrorCategory.UNKNOWN.
Proof.
  destruct (categorizeError_cases toLowerCase error) as [Hc | [Hc | [Hc | Hc]]];
    rewrite Hc; simpl; split; try reflexivity; try discriminate; congruence.
Qed.

(** X8. The failed-request handler never logs at error level: the severity
    it derives from the classifier's category is medium or low, so
    [logFailedRequest] calls [console.warn], or [console.log] exactly for a
    rate limit, with the line made of pictograph, URL and message. *)
Theorem logFailedRequest_never_console_error
    (toLowerCase getErrorEmoji : string -> string) (error : JsError)
    (url : string) context now :
  let category := categorizeError toLowerCase error in
  let crawlerError :=
    CrawlerError.new (error_message error) category (getErrorSeverity category)
      context now in
  exists level,
    logFailedRequest getErrorEmoji crawlerError url
    = Some (level, getErrorEmoji category +:+ " Request failed for " +:+ url +:+ ": "
                   +:+ error_message error)
    /\ level <> ConsoleError
    /\ (level = ConsoleLog <-> category = ErrorCategory.RATE_LIMIT).
Proof.
  cbv zeta. unfold logFailedRequest. cbn [CrawlerError.new CrawlerError.category
    CrawlerError.message CrawlerError.severity].
  destruct (categorizeError_cases toLowerCase error) as [Hc | [Hc | [Hc | Hc]]];
    rewrite Hc; cbn [getErrorSeverity];
    [exists ConsoleWarn | exists ConsoleWarn | exists ConsoleLog | exists ConsoleWarn];
    (split; [reflexivity |]); (split; [discriminate |]);
    split; intros H; try discriminate H; reflexivity.
Qed.

Lemma ascii_lower_idempotent (c : ascii) : ascii_lower (ascii_lower c) = ascii_lower c.
Proof.
  destruct c as [[|] [|] [|] [|] [|] [|] [|] [|]]; reflexivity.
Qed.

Lemma ascii_toLowerCase_idempotent (s : string) :
  ascii_toLowerCase (ascii_toLowerCase s) = ascii_toLowerCase s.
Proof.
  induction s as [| c s IH]; [reflexivity |].
  cbn [ascii_toLowerCase]. rewrite ascii_lower_idempotent, IH. reflexivity.
Qed.

(** X9. On ASCII text the classifier ignores the case of letters: two
    errors whose messages differ only in case get the same category. *)
Theorem categorizeError_ignores_case (error1 error2 : JsError) :
  ascii_toLowerCase (error_message error1) = ascii_toLowerCase (error_message error2) ->
  categorizeError ascii_toLowerCase error1 = categorizeError ascii_toLowerCase error2
  /\ categorizeError ascii_toLowerCase error1
     = categorizeError ascii_toLowerCase
         (PlainError "Error" (ascii_toLowerCase (error_message error1))).
Proof.
  intros H. unfold categorizeError. cbn [error_message].
  rewrite ascii_toLowerCase_idempotent, H. split; reflexivity.
Qed.

Lemma categorizeError_ignores_case_witness :
  categorizeError ascii_toLowerCase (PlainError "Error" "429 Too Many Requests")
  = categorizeError ascii_toLowerCase (PlainError "Error" "429 TOO MANY REQUESTS")
  /\ categorizeError ascii_toLowerCase (PlainError "Error" "429 Too Many Requests")
     = ErrorCategory.RATE_LIMIT.
Proof.
  split; [| reflexivity].
  refine (proj1 (categorizeError_ignores_case
                   (PlainError "Error" "429 Too Many Requests")
                   (PlainError "Error" "429 TOO MANY REQUESTS") _)).
  reflexivity.
Defined.

(** X10. Every failed request is counted once: whatever the error, the
    handler adds one to [failedRequests], appends one entry with the error's
    message and the request's URL at the end of [errors], and leaves every
    other statistic and the filter as they were. *)
Theorem handleFailedRequestWithRecovery_stats
    (toLowerCase : string -> string) (this : WebCrawler) request_url request_retryCount
    (error : JsError) (now : string) :
  let this' := fst (handleFailedRequestWithRecovery toLowerCase this request_url
                      request_retryCount error now) in
  CrawlingStats.failedRequests (stats this')
    = CrawlingStats.failedRequests (stats this) + 1
  /\ CrawlingStats.errors (stats this')
     = (CrawlingStats.errors (stats this)
        ++ [{| CrawlingStats.message := error_message error;
               CrawlingStats.url := request_url;
               CrawlingStats.timestamp := now |}])%list
  /\ CrawlingStats.warnings (stats this') = CrawlingStats.warnings (stats this)
  /\ CrawlingStats.totalRequests (stats this') = CrawlingStats.totalRequests (stats this)
  /\ CrawlingStats.successfulRequests (stats this')
     = CrawlingStats.successfulRequests (stats this)
  /\ CrawlingStats.filteredUrls (stats this') = CrawlingStats.filteredUrls (stats this)
  /\ CrawlingStats.depthExceededUrls (stats this')
     = CrawlingStats.depthExceededUrls (stats this)
  /\ urlFilter this' = urlFilter this.
Proof.
  cbv zeta. unfold handleFailedRequestWithRecovery. cbv zeta.
  match goal with
  | |- context [if ?b then _ else _] => destruct b
  end; cbn [fst].
  - unfold rotateProxy. cbn [options_proxyConfiguration heap stats urlFilter].
    destruct (options_proxyConfiguration this) as [l |]; [| repeat split].
    destruct (read_proxyUrls (heap this) l); repeat split.
  - repeat split.
Qed.

(** X11. The handler touches the proxy state only for a rate limit with
    proxy rotation enabled, and then exactly as one [rotateProxy] does; for
    every other error the index and the proxy objects stay as they are and
    no recovery action is taken. *)
Theorem handleFailedRequestWithRecovery_rotation
    (toLowerCase : string -> string) (this : WebCrawler) request_url request_retryCount
    (error : JsError) (now : string) :
  let out := handleFailedRequestWithRecovery toLowerCase this request_url
               request_retryCount error now in
  if String.eqb (categorizeError toLowerCase error) ErrorCategory.RATE_LIMIT
     && proxyRotationEnabled this
  then snd out = [RotatedProxy]
       /\ currentProxyIndex (fst out) = currentProxyIndex (rotateProxy this)
       /\ heap (fst out) = heap (rotateProxy this)
  else snd out = []
       /\ currentProxyIndex (fst out) = currentProxyIndex this
       /\ heap (fst out) = heap this.
Proof.
  cbv zeta. unfold handleFailedRequestWithRecovery. cbv zeta.
  cbn [proxyRotationEnabled].
  destruct (String.eqb (categorizeError toLowerCase error) ErrorCategory.RATE_LIMIT)
    eqn:Hrate.
  - apply String.eqb_eq in Hrate. rewrite Hrate.
    change (String.eqb ErrorCategory.RATE_LIMIT ErrorCategory.MEMORY) with false.
    cbn [andb]. destruct (proxyRotationEnabled this); cbn [fst snd app].
    + split; [reflexivity |].
      unfold rotateProxy. cbn [options_proxyConfiguration heap crawler currentProxyIndex].
      destruct (options_proxyConfiguration this) as [l |]; [| split; reflexivity].
      destruct (read_proxyUrls (heap this) l); split; reflexivity.
    + repeat split.
  - cbn [andb fst snd].
    destruct (categorizeError_cases toLowerCase error) as [Hc | [Hc | [Hc | Hc]]];
      rewrite Hc in *; try discriminate Hrate; repeat split.
Qed.

(** ** Statistics *)

(** Beyond about [9 * 10 ^ 13] requests the rate can read 100 although
    fewer than 99.5 percent succeeded: the quotient is then too close to
    0.995 for binary64 to tell them apart. *)
Example getSuccessRate_beyond_range :
  let this := CrawlingStats.mk 0 None 100000000000199 99500000000198 500000000001
                0 0 0 0 0 [] [] in
  CrawlingStats.getSuccessRate this = 100
  /\ 200 * CrawlingStats.successfulRequests this < 199 * CrawlingStats.totalRequests this.
Proof. split; vm_compute; reflexivity. Qed.

(** X12. While the successes do not exceed the requests, and for up to
    [2 ^ 44] requests, the success rate is a whole percentage between 0 and
    100; it reads 100 exactly when at least 99.5 percent of the requests
    succeeded, so it can hide failures. *)
Theorem getSuccessRate_range (this : CrawlingStats.t) :
  0 <= CrawlingStats.successfulRequests this <= CrawlingStats.totalRequests this ->
  CrawlingStats.totalRequests this <= 2 ^ 44 ->
  0 <= CrawlingStats.getSuccessRate this <= 100
  /\ (0 < CrawlingStats.totalRequests this ->
      (CrawlingStats.getSuccessRate this = 100
       <-> 199 * CrawlingStats.totalRequests this
           <= 200 * CrawlingStats.successfulRequests this)).
Proof.
  intros Hrange Hmax.
  destruct (Z.eq_dec (CrawlingStats.totalRequests this) 0) as [Hz | Hnz].
  - unfold CrawlingStats.getSuccessRate. rewrite Hz. simpl. split; lia.
  - assert (Ht : 0 < CrawlingStats.totalRequests this) by lia.
    assert (Heq : CrawlingStats.getSuccessRate this
                  = CrawlingStats.Math_round
                      (binary64
                         (binary64 (inject_Z (CrawlingStats.successfulRequests this)
                                    / inject_Z (CrawlingStats.totalRequests this))
                          * inject_Z 100))).
    { unfold CrawlingStats.getSuccessRate.
      destruct (CrawlingStats.totalRequests this =? 0) eqn:Hz;
        [apply Z.eqb_eq in Hz; lia | reflexivity]. }
    pose proof (percent_near (CrawlingStats.successfulRequests this)
                  (CrawlingStats.totalRequests this) ltac:(lia) ltac:(lia)) as Hnear.
    pose proof (percent_tie_199_200 (CrawlingStats.successfulRequests this)
                  (CrawlingStats.totalRequests this) Ht) as Htie.
    rewrite <- Heq in Hnear, Htie.
    set (t := CrawlingStats.totalRequests this) in *.
    set (s := CrawlingStats.successfulRequests this) in *.
    set (r := CrawlingStats.getSuccessRate this) in *.
    clearbody t s r.
    split; [nia |]. intros _. split; intros H.
    + subst r. lia.
    + destruct (Z.eq_dec (199 * t) (200 * s)) as [He | Hne]; [exact (Htie He) |].
      nia.
Qed.

Lemma getSuccessRate_range_witness :
  CrawlingStats.getSuccessRate (CrawlingStats.mk 0 None 200 199 1 0 0 0 0 0 [] []) = 100.
Proof.
  destruct (getSuccessRate_range (CrawlingStats.mk 0 None 200 199 1 0 0 0 0 0 [] [])
              ltac:(simpl; lia) ltac:(simpl; lia)) as [_ H].
  apply (H ltac:(simpl; lia)). simpl. lia.
Defined.

Lemma Math_round_thousandth (x : Z) :
  CrawlingStats.Math_round (inject_Z x / inject_Z 1000)%Q = (2 * x + 1000) / 2000.
Proof.
  unfold CrawlingStats.Math_round, Qfloor, Qplus, Qmult, Qdiv, Qinv, inject_Z.
  simpl Qnum. simpl Qden. f_equal; lia.
Qed.

(** For times less than [2 ^ 53] ms apart, the duration is what the
    binary64 quotient rounds to. *)
Lemma getDuration_binary64 (this : CrawlingStats.t) (now : Z) :
  let end_ := default now (CrawlingStats.endTime this) in
  Z.abs (end_ - CrawlingStats.startTime this) < 2 ^ 53 ->
  getDuration this now
  = CrawlingStats.Math_round
      (binary64 (inject_Z (end_ - CrawlingStats.startTime this) / inject_Z 1000)).
Proof.
  cbv zeta. intros Hrange. unfold getDuration.
  symmetry. apply Math_round_thousandth_binary64. exact Hrange.
Qed.

(** X13. Once [complete()] has been called the duration no longer follows
    the clock: it is the time from start to completion, rounded to whole
    seconds (at most half a second off). *)
Theorem getDuration_completed (this : CrawlingStats.t) (finished now : Z) :
  let d := getDuration (complete finished this) now in
  d = getDuration (complete finished this) finished
  /\ 1000 * d - 500 <= finished - CrawlingStats.startTime this < 1000 * d + 500.
Proof.
  cbv zeta. unfold getDuration, complete. cbn [CrawlingStats.endTime CrawlingStats.startTime].
  cbn [default from_option]. unfold id. split; [reflexivity |].
  rewrite Math_round_thousandth.
  set (x := finished - CrawlingStats.startTime this).
  pose proof (Z.div_mod (2 * x + 1000) 2000 ltac:(lia)) as Hdm.
  pose proof (Z.mod_pos_bound (2 * x + 1000) 2000 ltac:(lia)) as Hmb.
  lia.
Qed.

(** ** The URL filter *)

(** X14. [shouldCrawl] allows a URL exactly when the depth is below
    [maxDepth], the exclusion test fails and the inclusion test holds; the
    reason is one of the four of the filter, and it is "allowed" exactly for
    an allowed URL. *)
Theorem shouldCrawl_allowed_iff
    (minimatch : string -> string -> Completion bool) (this : UrlFilter)
    (url : string) (depth : Z) :
  exists decision,
    shouldCrawl minimatch this url depth = Normal decision
    /\ (FilterDecision.reason decision
        ∈ ["depth_exceeded"; "excluded_pattern"; "not_included"; "allowed"])
    /\ (FilterDecision.allowed decision = true
        <-> FilterDecision.reason decision = "allowed")
    /\ (FilterDecision.allowed decision = true
        <-> depth < maxDepth this
            /\ matchesExcludePatterns minimatch this url = Normal false
            /\ matchesIncludePatterns minimatch this url = Normal true).
Proof.
  unfold shouldCrawl.
  destruct (maxDepth this <=? depth) eqn:Hle.
  - apply Z.leb_le in Hle. eexists. split; [reflexivity |]. cbn.
    split; [set_solver |]. split; split; try discriminate. lia.
  - apply Z.leb_gt in Hle.
    destruct (matchesExcludePatterns_total minimatch this url) as [[|] ->];
      [| destruct (matchesIncludePatterns_total minimatch this url) as [[|] ->]];
      cbn; eexists; (split; [reflexivity |]); cbn;
      (split; [set_solver |]); split; split; try discriminate; try tauto;
      intros (_ & H1 & H2); discriminate.
Qed.

(** X15. The default include pattern [**] stands in only for a missing
    list: a filter created with an empty include list allows no URL at all,
    and below [maxDepth] every URL that is not excluded is denied with
    not_included. *)
Theorem shouldCrawl_empty_include_denies_all
    (minimatch : string -> string -> Completion bool)
    (excludeUrlGlobs : option (list string)) (maxCrawlDepth : option Z)
    (url : string) (depth : Z) :
  let this := new_UrlFilter (Some []) excludeUrlGlobs maxCrawlDepth in
  exists decision,
    shouldCrawl minimatch this url depth = Normal decision
    /\ FilterDecision.allowed decision = false
    /\ (depth < maxDepth this ->
        matchesExcludePatterns minimatch this url = Normal false ->
        FilterDecision.reason decision = "not_included").
Proof.
  cbv zeta. unfold shouldCrawl.
  set (this := new_UrlFilter (Some []) excludeUrlGlobs maxCrawlDepth).
  destruct (maxDepth this <=? depth) eqn:Hle.
  - apply Z.leb_le in Hle. eexists. split; [reflexivity |]. split; [reflexivity |]. lia.
  - destruct (matchesExcludePatterns_total minimatch this url) as [[|] ->]; cbn.
    + eexists. split; [reflexivity |]. split; [reflexivity |]. discriminate.
    + eexists. split; [reflexivity |]. split; reflexivity.
Qed.

Lemma shouldCrawl_empty_include_denies_all_witness :
  shouldCrawl Reference.minimatch (new_UrlFilter (Some []) None None)
    "https://example.com/docs/intro" 1
  = Normal (FilterDecision.mk false "not_included").
Proof.
  destruct (shouldCrawl_empty_include_denies_all Reference.minimatch None None
              "https://example.com/docs/intro" 1) as (decision & Heq & Ha & Hr).
  rewrite Heq. f_equal.
  specialize (Hr ltac:(vm_compute; reflexivity) ltac:(reflexivity)).
  destruct decision as [a r]. cbn in Ha, Hr. subst a r. reflexivity.
Defined.

(** X16. A crawl depth of 0 cannot be configured: the filter replaces it,
    like a missing one, by 3, so links found at depths 0, 1 and 2 are still
    not denied for their depth. *)
Theorem shouldCrawl_depth_zero_is_three
    (minimatch : string -> string -> Completion bool)
    (includeUrlGlobs excludeUrlGlobs : option (list string)) (url : string) (depth : Z) :
  depth < 3 ->
  maxDepth (new_UrlFilter includeUrlGlobs excludeUrlGlobs (Some 0)) = 3
  /\ (forall maxCrawlDepth,
        maxDepth (new_UrlFilter includeUrlGlobs excludeUrlGlobs maxCrawlDepth) <> 0)
  /\ shouldCrawl minimatch (new_UrlFilter includeUrlGlobs excludeUrlGlobs (Some 0)) url depth
     <> Normal (FilterDecision.mk false "depth_exceeded").
Proof.
  intros Hdepth. split; [reflexivity |]. split.
  - intros [d |]; simpl; [| discriminate].
    destruct (d =? 0) eqn:Hd; [discriminate | apply Z.eqb_neq in Hd; exact Hd].
  - set (this := new_UrlFilter includeUrlGlobs excludeUrlGlobs (Some 0)).
    unfold shouldCrawl. change (maxDepth this) with 3.
    destruct (3 <=? depth) eqn:Hle; [apply Z.leb_le in Hle; lia |].
    destruct (matchesExcludePatterns_total minimatch this url) as [[|] ->]; cbn;
      [discriminate |].
    destruct (matchesIncludePatterns_total minimatch this url) as [[|] ->]; cbn;
      discriminate.
Qed.

Lemma shouldCrawl_depth_zero_is_three_witness :
  shouldCrawl Reference.minimatch (new_UrlFilter None None (Some 0))
    "https://example.com/a/b" 2
  <> Normal (FilterDecision.mk false "depth_exceeded").
Proof.
  exact (proj2 (proj2 (shouldCrawl_depth_zero_is_three Reference.minimatch None None
                         "https://example.com/a/b" 2 ltac:(lia)))).
Defined.

Section BaseUrls.
Variable URL_parse : string -> option URL.t.
Variable URL_origin : URL.t -> string.

Lemma addBaseUrls_fold (urls : list string) : forall this : UrlFilter,
  let this' := addBaseUrls URL_parse URL_origin urls this in
  includeGlobs this' = includeGlobs this
  /\ excludeGlobs this' = excludeGlobs this
  /\ maxDepth this' = maxDepth this
  /\ (forall origin,
        origin ∈ baseUrls this'
        <-> origin ∈ baseUrls this
            \/ exists url parsed, url ∈ urls /\ URL_parse url = Some parsed
                                  /\ URL_origin parsed = origin).
Proof.
  unfold addBaseUrls.
  set (F := fun (this : UrlFilter) (url : string) => _).
  induction urls as [| url urls IH]; intros this; cbv zeta; cbn [fold_left].
  - repeat split; try tauto.
    intros [H | (u & p & Hin & _)]; [exact H | inversion Hin].
  - assert (HF : F this url
                 = match URL_parse url with
                   | Some parsed =>
                       set_baseUrls ({[URL_origin parsed]} ∪ baseUrls this) this
                   | None => this
                   end).
    { unfold F, new_URL. destruct (URL_parse url); reflexivity. }
    destruct (IH (F this url)) as (Hi & He & Hd & Hb). cbv zeta in *.
    rewrite Hi, He, Hd. rewrite HF in *.
    destruct (URL_parse url) as [parsed |] eqn:Hp.
    + split; [reflexivity | split; [reflexivity | split; [reflexivity |]]].
      intros origin. rewrite Hb. cbn [baseUrls set_baseUrls].
      rewrite elem_of_union, elem_of_singleton. split.
      * intros [[-> | H] | (u & p & Hin & Hu & Ho)].
        -- right. exists url, parsed. split; [left | auto].
        -- left. exact H.
        -- right. exists u, p. split; [right; exact Hin | auto].
      * intros [H | (u & p & Hin & Hu & Ho)]; [left; right; exact H |].
        apply elem_of_cons in Hin as [-> | Hin].
        -- left. left. congruence.
        -- right. exists u, p. auto.
    + split; [reflexivity | split; [reflexivity | split; [reflexivity |]]].
      intros origin. rewrite Hb. split.
      * intros [H | (u & p & Hin & Hu & Ho)]; [left; exact H |].
        right. exists u, p. split; [right; exact Hin | auto].
      * intros [H | (u & p & Hin & Hu & Ho)]; [left; exact H |].
        apply elem_of_cons in Hin as [-> | Hin]; [congruence |].
        right. exists u, p. auto.
Qed.
End BaseUrls.

(** X17. [addBaseUrls] collects the origins of the start URLs that parse,
    skips the others without failing, and loses no origin it had; it
    changes neither the patterns nor the depth limit, so no decision of
    [shouldCrawl] depends on the base URLs. *)
Theorem addBaseUrls_collects_origins
    (minimatch : string -> string -> Completion bool)
    (URL_parse : string -> option URL.t) (URL_origin : URL.t -> string)
    (urls : list string) (this : UrlFilter) :
  let this' := addBaseUrls URL_parse URL_origin urls this in
  (forall origin,
     origin ∈ baseUrls this'
     <-> origin ∈ baseUrls this
         \/ exists url parsed, url ∈ urls /\ URL_parse url = Some parsed
                               /\ URL_origin parsed = origin)
  /\ (forall url depth,
        shouldCrawl minimatch this' url depth = shouldCrawl minimatch this url depth).
Proof.
  cbv zeta.
  destruct (addBaseUrls_fold URL_parse URL_origin urls this) as (Hi & He & Hd & Hb).
  cbv zeta in *. split; [exact Hb |].
  intros url depth. unfold shouldCrawl, matchesExcludePatterns, matchesIncludePatterns.
  rewrite Hi, He, Hd. reflexivity.
Qed.






(** ** Link discovery *)

Section DiscoverFacts.
Variable minimatch : string -> string -> Completion bool.
Variable URL_parse : string -> option URL.t.
Implicit Types (this : WebCrawler) (req : Request) (links : list Request).

Lemma link_decision_total (filter : UrlFilter) nextDepth req :
  exists decision, link_decision minimatch URL_parse filter nextDepth req = Some decision.
Proof.
  unfold link_decision, frontier_filter.
  destruct (normalizeUrl_total URL_parse (request_url req)) as [out ->].
  cbn [mbind Completion_bind].
  destruct (shouldCrawl_total minimatch filter out nextDepth) as [decision ->].
  eauto.
Qed.

Lemma link_decision_at_limit (filter : UrlFilter) nextDepth req :
  maxDepth filter <= nextDepth ->
  link_decision minimatch URL_parse filter nextDepth req
  = Some (FilterDecision.mk false "depth_exceeded").
Proof.
  intros Hle. unfold link_decision, frontier_filter.
  destruct (normalizeUrl_total URL_parse (request_url req)) as [out ->].
  cbn [mbind Completion_bind]. unfold shouldCrawl.
  destruct (maxDepth filter <=? nextDepth) eqn:Hleb; [reflexivity |].
  apply Z.leb_gt in Hleb. lia.
Qed.

Lemma link_admitted_below_limit (filter : UrlFilter) nextDepth req :
  link_admitted minimatch URL_parse filter nextDepth req = true ->
  nextDepth < maxDepth filter.
Proof.
  intros Ha. destruct (Z.lt_ge_cases nextDepth (maxDepth filter)) as [H | H]; [exact H |].
  unfold link_admitted in Ha. rewrite (link_decision_at_limit filter nextDepth req H) in Ha.
  discriminate.
Qed.

Lemma link_trichotomy (filter : UrlFilter) nextDepth req :
  let a := link_admitted minimatch URL_parse filter nextDepth req in
  let x := link_depth_exceeded minimatch URL_parse filter nextDepth req in
  let f := link_filtered minimatch URL_parse filter nextDepth req in
  (a = true /\ x = false /\ f = false)
  \/ (a = false /\ x = true /\ f = false)
  \/ (a = false /\ x = false /\ f = true).
Proof.
  cbv zeta. unfold link_admitted, link_depth_exceeded, link_filtered.
  destruct (link_decision_total filter nextDepth req) as [decision ->].
  destruct (FilterDecision.allowed decision);
    destruct (String.eqb (FilterDecision.reason decision) "depth_exceeded");
    cbn [negb andb]; tauto.
Qed.

Lemma transformRequestFunction_cases nextDepth this req :
  transformRequestFunction minimatch URL_parse nextDepth this req =
  if link_admitted minimatch URL_parse (urlFilter this) nextDepth req
  then (this, Some (with_depth nextDepth req))
  else if link_depth_exceeded minimatch URL_parse (urlFilter this) nextDepth req
  then (set_stats (incr_depthExceededUrls (stats this)) this, None)
  else (set_stats (incr_filteredUrls (stats this)) this, None).
Proof.
  unfold transformRequestFunction, link_admitted, link_depth_exceeded, link_decision,
    frontier_filter.
  destruct (normalizeUrl_total URL_parse (request_url req)) as [out ->].
  cbn [mbind Completion_bind].
  destruct (shouldCrawl_total minimatch (urlFilter this) out nextDepth) as [decision ->].
  cbn [mbind Completion_bind].
  destruct (FilterDecision.allowed decision); cbn [negb andb]; [reflexivity |].
  destruct (String.eqb (FilterDecision.reason decision) "depth_exceeded"); reflexivity.
Qed.

(** Every link is admitted, or denied for its depth, or filtered. *)
Lemma links_partition (filter : UrlFilter) nextDepth links :
  (length (List.filter (link_admitted minimatch URL_parse filter nextDepth) links)
   + length (List.filter (link_depth_exceeded minimatch URL_parse filter nextDepth) links)
   + length (List.filter (link_filtered minimatch URL_parse filter nextDepth) links))%nat
  = length links.
Proof.
  induction links as [| req links IH]; [reflexivity |].
  cbn [List.filter]. unfold link_admitted, link_depth_exceeded, link_filtered in *.
  destruct (link_decision_total filter nextDepth req) as [decision ->].
  destruct (FilterDecision.allowed decision);
    destruct (String.eqb (FilterDecision.reason decision) "depth_exceeded");
    cbn [negb andb length]; lia.
Qed.

Lemma discoverLinks_fold nextDepth links : forall this enqueued this' enqueued',
  fold_left
    (fun '(this, enqueued) req =>
       match transformRequestFunction minimatch URL_parse nextDepth this req with
       | (this', Some req') => (this', (enqueued ++ [req'])%list)
       | (this', None) => (this', enqueued)
       end)
    links (this, enqueued) = (this', enqueued') ->
  let filter := urlFilter this in
  urlFilter this' = filter
  /\ enqueued'
     = (enqueued ++ map (with_depth nextDepth)
          (List.filter (link_admitted minimatch URL_parse filter nextDepth) links))%list
  /\ CrawlingStats.depthExceededUrls (stats this')
     = CrawlingStats.depthExceededUrls (stats this)
       + Z.of_nat (length (List.filter
                             (link_depth_exceeded minimatch URL_parse filter nextDepth) links))
  /\ CrawlingStats.filteredUrls (stats this')
     = CrawlingStats.filteredUrls (stats this)
       + Z.of_nat (length (List.filter
                             (link_filtered minimatch URL_parse filter nextDepth) links))
  /\ CrawlingStats.totalRequests (stats this') = CrawlingStats.totalRequests (stats this)
  /\ CrawlingStats.failedRequests (stats this') = CrawlingStats.failedRequests (stats this).
Proof.
  induction links as [| req links IH]; intros this enqueued this' enqueued' H; cbv zeta.
  - cbn in H. injection H as <- <-. cbn. rewrite app_nil_r.
    repeat split; lia.
  - cbn [fold_left] in H. rewrite transformRequestFunction_cases in H.
    cbn [List.filter].
    destruct (link_trichotomy (urlFilter this) nextDepth req)
      as [(Ha & Hx & Hf) | [(Ha & Hx & Hf) | (Ha & Hx & Hf)]];
      rewrite ?Ha, ?Hx in H; rewrite ?Ha, ?Hx, ?Hf;
      apply IH in H; cbv zeta in H; destruct H as (Hf' & He & Hx' & Hfl & Ht & Hfa);
      cbn [urlFilter stats set_stats incr_depthExceededUrls incr_filteredUrls
             CrawlingStats.depthExceededUrls CrawlingStats.filteredUrls
             CrawlingStats.totalRequests CrawlingStats.failedRequests] in *;
      rewrite Hf', He, Hx', Hfl, Ht, Hfa; cbn [length map];
      rewrite <- ?app_assoc; repeat split; lia.
Qed.
End DiscoverFacts.

Lemma filter_none {A} (p : A -> bool) (l : list A) :
  (forall x, p x = false) -> List.filter p l = [].
Proof.
  intros Hp. induction l as [| x l IH]; [reflexivity |]. cbn. rewrite Hp. exact IH.
Qed.

Lemma filter_every {A} (p : A -> bool) (l : list A) :
  (forall x, p x = true) -> List.filter p l = l.
Proof.
  intros Hp. induction l as [| x l IH]; [reflexivity |]. cbn. rewrite Hp, IH. reflexivity.
Qed.

(** X19. Link discovery accounts for every link once: each link found on a
    page is enqueued, or counted in [depthExceededUrls], or counted in
    [filteredUrls], so the two counters and the number of enqueued requests
    grow together by the number of links; the filter is not changed. *)
Theorem discoverLinks_accounts_for_every_link
    (minimatch : string -> string -> Completion bool)
    (URL_parse : string -> option URL.t) (this : WebCrawler) (currentDepth : Z)
    (links : list Request) :
  let out := discoverLinks minimatch URL_parse this currentDepth links in
  CrawlingStats.filteredUrls (stats (fst out))
  + CrawlingStats.depthExceededUrls (stats (fst out))
  + Z.of_nat (length (snd out))
  = CrawlingStats.filteredUrls (stats this)
    + CrawlingStats.depthExceededUrls (stats this)
    + Z.of_nat (length links)
  /\ urlFilter (fst out) = urlFilter this
  /\ CrawlingStats.totalRequests (stats (fst out)) = CrawlingStats.totalRequests (stats this)
  /\ CrawlingStats.failedRequests (stats (fst out)) = CrawlingStats.failedRequests (stats this).
Proof.
  cbv zeta. unfold discoverLinks. cbv zeta.
  match goal with
  | |- context [fold_left ?f links (this, [])] =>
      destruct (fold_left f links (this, [])) as [this' enqueued'] eqn:Hfold
  end.
  apply discoverLinks_fold in Hfold. cbv zeta in Hfold.
  destruct Hfold as (Hf & He & Hx & Hfl & Ht & Hfa). cbn [fst snd].
  rewrite Hf, He, Hx, Hfl, Ht, Hfa. cbn [app]. rewrite length_map.
  pose proof (links_partition minimatch URL_parse (urlFilter this) (currentDepth + 1) links).
  repeat split; lia.
Qed.

(** X20. The requests that link discovery enqueues are the links the
    frontier filter allows, in the order in which they were found, each
    with the URL as it was found (the normalised URL is used for the
    decision only) and with the depth of the page plus one, which is below
    [maxDepth]. *)
Theorem discoverLinks_enqueued
    (minimatch : string -> string -> Completion bool)
    (URL_parse : string -> option URL.t) (this : WebCrawler) (currentDepth : Z)
    (links : list Request) :
  let nextDepth := currentDepth + 1 in
  let enqueued := snd (discoverLinks minimatch URL_parse this currentDepth links) in
  enqueued
  = map (with_depth nextDepth)
      (List.filter (link_admitted minimatch URL_parse (urlFilter this) nextDepth) links)
  /\ Forall (fun req => userData_depth req = Some nextDepth
                        /\ request_depth req < maxDepth (urlFilter this)
                        /\ exists link, link ∈ links /\ request_url req = request_url link)
            enqueued.
Proof.
  cbv zeta. unfold discoverLinks. cbv zeta.
  match goal with
  | |- context [fold_left ?f links (this, [])] =>
      destruct (fold_left f links (this, [])) as [this' enqueued'] eqn:Hfold
  end.
  apply discoverLinks_fold in Hfold. cbv zeta in Hfold.
  destruct Hfold as (_ & He & _). cbn [snd]. rewrite He. cbn [app].
  split; [reflexivity |].
  apply Forall_forall. intros req Hin.
  apply list_elem_of_In, in_map_iff in Hin. destruct Hin as (link & <- & Hin).
  apply filter_In in Hin. destruct Hin as [Hin Hadm].
  split; [reflexivity |]. split.
  - unfold request_depth. cbn. apply (link_admitted_below_limit _ _ _ _ _ Hadm).
  - exists link. split; [apply list_elem_of_In; exact Hin | reflexivity].
Qed.

(** X21. On a page whose links would reach [maxDepth], link discovery
    enqueues nothing and counts every link in [depthExceededUrls], none in
    [filteredUrls], whatever the patterns are. *)
Theorem discoverLinks_at_depth_limit
    (minimatch : string -> string -> Completion bool)
    (URL_parse : string -> option URL.t) (this : WebCrawler) (currentDepth : Z)
    (links : list Request) :
  maxDepth (urlFilter this) <= currentDepth + 1 ->
  let out := discoverLinks minimatch URL_parse this currentDepth links in
  snd out = []
  /\ CrawlingStats.depthExceededUrls (stats (fst out))
     = CrawlingStats.depthExceededUrls (stats this) + Z.of_nat (length links)
  /\ CrawlingStats.filteredUrls (stats (fst out)) = CrawlingStats.filteredUrls (stats this).
Proof.
  intros Hlimit. cbv zeta. unfold discoverLinks. cbv zeta.
  match goal with
  | |- context [fold_left ?f links (this, [])] =>
      destruct (fold_left f links (this, [])) as [this' enqueued'] eqn:Hfold
  end.
  apply discoverLinks_fold in Hfold. cbv zeta in Hfold.
  destruct Hfold as (_ & He & Hx & Hfl & _). cbn [fst snd]. rewrite He, Hx, Hfl.
  assert (Hall : forall req,
             link_admitted minimatch URL_parse (urlFilter this) (currentDepth + 1) req = false
             /\ link_depth_exceeded minimatch URL_parse (urlFilter this) (currentDepth + 1) req
                = true
             /\ link_filtered minimatch URL_parse (urlFilter this) (currentDepth + 1) req
                = false).
  { intros req. unfold link_admitted, link_depth_exceeded, link_filtered.
    rewrite (link_decision_at_limit minimatch URL_parse _ _ req Hlimit).
    repeat split. }
  rewrite (filter_none _ links (fun req => proj1 (Hall req))).
  rewrite (filter_none _ links (fun req => proj2 (proj2 (Hall req)))).
  rewrite (filter_every _ links (fun req => proj1 (proj2 (Hall req)))).
  cbn. repeat split; lia.
Qed.

Lemma discoverLinks_at_depth_limit_witness :
  let out := discoverLinks Reference.minimatch Reference.URL_parse docs_crawler 1 page_links in
  snd out = []
  /\ CrawlingStats.depthExceededUrls (stats (fst out))
     = CrawlingStats.depthExceededUrls (stats docs_crawler) + Z.of_nat (length page_links)
  /\ CrawlingStats.filteredUrls (stats (fst out))
     = CrawlingStats.filteredUrls (stats docs_crawler).
Proof.
  apply (discoverLinks_at_depth_limit Reference.minimatch Reference.URL_parse
           docs_crawler 1 page_links).
  vm_compute. discriminate.
Defined.

(** ** Extraction fallback, configuration, normalisation *)



(** X23. [validateConfiguration] returns true exactly when the include
    list is a non-empty array and none of its four comparisons holds: depth
    and concurrency are not below 1, the chunk size is not below 100 and the
    overlap is not at least the chunk size. A number that is missing passes
    every comparison made with it. In every other case the function throws
    (it never returns false), and a missing [processingOptions] makes it
    throw a [TypeError]. A configuration that passes reaches the URL filter
    with its include list, and with its depth limit or 3 when there is
    none. *)
Theorem validateConfiguration_accepts_iff (options : IntegrationOptions) :
  (validateConfiguration options = Normal true
   <-> (exists g gs, opt_includeUrlGlobs options = Some (g :: gs))
       /\ (forall d, opt_maxCrawlDepth options = Some d -> 1 <= d)
       /\ (forall c, opt_maxConcurrency options = Some c -> 1 <= c)
       /\ exists po, opt_processingOptions options = Some po
            /\ (forall size, chunkSize po = Some size -> 100 <= size)
            /\ (forall size overlap,
                  chunkSize po = Some size -> chunkOverlap po = Some overlap ->
                  overlap < size))
  /\ (validateConfiguration options = Normal true
      \/ (exists message,
            validateConfiguration options
            = Throw (PlainError "CrawlerIntegrationError" message))
      \/ (opt_processingOptions options = None
          /\ exists message,
               validateConfiguration options = Throw (PlainError "TypeError" message)))
  /\ (validateConfiguration options = Normal true ->
      Some (includeGlobs (integration_filter options)) = opt_includeUrlGlobs options
      /\ maxDepth (integration_filter options) = default 3 (opt_maxCrawlDepth options)).
Proof.
  assert (Hiff : validateConfiguration options = Normal true
                 <-> (exists g gs, opt_includeUrlGlobs options = Some (g :: gs))
                     /\ (forall d, opt_maxCrawlDepth options = Some d -> 1 <= d)
                     /\ (forall c, opt_maxConcurrency options = Some c -> 1 <= c)
                     /\ exists po, opt_processingOptions options = Some po
                          /\ (forall size, chunkSize po = Some size -> 100 <= size)
                          /\ (forall size overlap,
                                chunkSize po = Some size ->
                                chunkOverlap po = Some overlap -> overlap < size)).
  { unfold validateConfiguration, validation_errors_crawler, validation_errors_processing.
    destruct (opt_processingOptions options) as [[size overlap] |]; cbn [chunkSize chunkOverlap].
    2: { split; [discriminate |]. intros (_ & _ & _ & po & Hpo & _). discriminate Hpo. }
    destruct (opt_includeUrlGlobs options) as [[| g gs] |].
    1, 3: split; [destruct (js_lt _ _), (js_lt _ _); discriminate
                 | intros ((g & gs & Hg) & _); discriminate Hg].
    destruct (opt_maxCrawlDepth options) as [d |], (opt_maxConcurrency options) as [c |],
      size as [size |], overlap as [overlap |]; cbn [js_lt js_ge];
      repeat match goal with
             | |- context [?a <? ?b] => destruct (Z.ltb_spec a b)
             | |- context [?a <=? ?b] => destruct (Z.leb_spec a b)
             end; cbn;
      (split;
       [ intros Hres; try discriminate Hres;
         (split; [eauto |
          split; [intros ? [= <-]; lia |
          split; [intros ? [= <-]; lia |
          eexists; (split; [reflexivity |
          split; [intros ? [= <-]; lia | intros ? ? [= <-] [= <-]; lia]])]]])
       | intros (_ & Hd & Hc & po & [= <-] & Hsize & Hover); cbn in Hsize, Hover;
         try reflexivity; exfalso;
         first [ specialize (Hd _ eq_refl); lia
               | specialize (Hc _ eq_refl); lia
               | specialize (Hsize _ eq_refl); lia
               | specialize (Hover _ _ eq_refl eq_refl); lia ] ]). }
  split; [exact Hiff |]. split.
  - unfold validateConfiguration.
    destruct (opt_processingOptions options) as [po |]; [| right; right; eauto].
    destruct (0 <? length _)%nat; eauto.
  - intros Hok. apply Hiff in Hok. destruct Hok as ((g & gs & Hg) & Hd & _).
    unfold integration_filter. rewrite Hg. cbn. split; [reflexivity |].
    destruct (opt_maxCrawlDepth options) as [d |]; [| reflexivity]. cbn.
    specialize (Hd d eq_refl).
    destruct (d =? 0) eqn:Hz; [| reflexivity].
    apply Z.eqb_eq in Hz. lia.
Qed.

Lemma validateConfiguration_accepts_iff_witness :
  validateConfiguration only_chunkSize_500 = Normal true
  /\ maxDepth (integration_filter only_chunkSize_500) = 3.
Proof.
  destruct (validateConfiguration_accepts_iff only_chunkSize_500) as (Hiff & _ & Hfilter).
  assert (Hok : validateConfiguration only_chunkSize_500 = Normal true).
  { apply Hiff. split; [eexists _, _; reflexivity |].
    split; [intros d [= <-]; lia |].
    split; [intros c [= <-]; lia |].
    eexists. split; [reflexivity |].
    split; [intros size [= <-]; lia | intros size overlap _ H; discriminate H]. }
  split; [exact Hok | exact (proj2 (Hfilter Hok))].
Defined.

(** X24. Normalising twice is normalising once, for every string, provided
    the parser reads the serialisation of a URL without fragment back as
    that URL (as the URL Standard requires of parser and serialiser). *)
Theorem normalizeUrl_idempotent
    (URL_parse : string -> option URL.t) (url out : string) :
  (forall parsed, URL_parse url = Some parsed ->
                  URL_parse (URL.without_fragment parsed)
                  = Some (URL.set_hash_empty parsed)) ->
  normalizeUrl URL_parse url = Normal out ->
  normalizeUrl URL_parse out = Normal out.
Proof.
  intros Hround Hnorm. unfold normalizeUrl, new_URL in *.
  destruct (URL_parse url) as [parsed |] eqn:Hp;
    cbn [mbind Completion_bind try_catch] in Hnorm; injection Hnorm as <-.
  - rewrite toString_set_hash_empty, (Hround parsed eq_refl).
    cbn [mbind Completion_bind try_catch]. rewrite toString_set_hash_empty.
    reflexivity.
  - rewrite Hp. reflexivity.
Qed.

Lemma normalizeUrl_idempotent_witness :
  normalizeUrl Reference.URL_parse "https://example.com/docs/a?x=1"
  = Normal "https://example.com/docs/a?x=1".
Proof.
  apply (normalizeUrl_idempotent Reference.URL_parse "https://Example.com/docs/a?x=1#top").
  - intros parsed Hp. vm_compute in Hp. injection Hp as <-. reflexivity.
  - reflexivity.
Defined.

(** X25. An operation that fails with a retryable error on every call is
    invoked exactly [max(1, maxRetries)] times before the error is rethrown:
    [maxRetries] bounds the invocations, so the retries are one fewer. *)
Theorem executeWithRetry_always_failing_invocations
    {W R : Type} (operation : Operation W R) config operationId s fuel :
  (forall s0, exists s1 e, operation s0 = (s1, Throw (CrawlerErr e))
                           /\ CrawlerError.isRetryable e = true) ->
  (retry_fuel config <= fuel)%nat ->
  exists s' events (error : JsError),
    executeWithRetry fuel config operation operationId s = Some (s', events, Throw error)
    /\ invocations events = Z.max 1 (maxRetries config).
Proof.
  intros Hfail Hfuel. unfold executeWithRetry, retry_fuel in *.
  destruct (executeWithRetry_loop_always_failing fuel config operation operationId 0 s
              Hfail ltac:(lia) ltac:(rewrite Z.sub_0_r; lia))
    as (s' & events & error & Heq & Hinv).
  exists s', events, error. rewrite Z.sub_0_r in Hinv. auto.
Qed.

Lemma executeWithRetry_always_failing_invocations_witness :
  exists s' events (error : JsError),
    executeWithRetry 3 (new_RetryConfig (Some 2) (Some 500))
      (always_fails (CrawlerErr network_error)) "crawler-initialization" fresh_store
    = Some (s', events, Throw error)
    /\ invocations events = Z.max 1 2.
Proof.
  apply (executeWithRetry_always_failing_invocations
           (always_fails (CrawlerErr network_error)) (new_RetryConfig (Some 2) (Some 500))
           "crawler-initialization" fresh_store 3).
  - intros s0. exists s0, network_error. split; reflexivity.
  - vm_compute. lia.
Defined.

(** ** The page pipeline of the integrated crawler *)

Section PipelineFacts.
Variable extract : string -> ExtractOptions -> Completion ExtractionResult.
Variable process : option string -> SourceInfo -> Completion ProcessingResult.

(** The four ways in which [processPage] ends. *)
Lemma processPage_cases (st : ProcessingStats) (url htmlContent now : string) :
  let out := processPage extract process st url htmlContent now in
  let counted :=
    mkProcessingStats (ps_totalPages st + 1) (ps_totalChunks st) (ps_totalTokens st)
      (ps_successfulExtractions st + 1) (ps_failedExtractions st)
      (ps_errors st) (ps_warnings st) in
  (exists page,
     snd out = Normal (Some page)
     /\ fst out = mkProcessingStats (ps_totalPages st + 1)
                    (ps_totalChunks st + page_chunkCount page)
                    (ps_totalTokens st + page_tokenCount page)
                    (ps_successfulExtractions st + 1)
                    (ps_failedExtractions st) (ps_errors st) (ps_warnings st)
     /\ page_chunkCount page = Z.of_nat (length (page_chunks page))
     /\ processing_chunks (page_processingResult page) = Some (page_chunks page))
  \/ (exists errors warnings,
        snd out = Normal None
        /\ (length errors + length warnings = 1)%nat
        /\ fst out = page_failed st errors warnings)
  \/ (exists errors,
        snd out = Normal None
        /\ length errors = 1%nat
        /\ fst out = page_failed counted errors []
        /\ exists extractionResult processingResult,
             extract htmlContent
               {| extract_url := url; extract_fallback := false;
                  extract_minContentLength := None |} = Normal extractionResult
             /\ process (extraction_markdown extractionResult)
                  {| sourceUrl := url;
                     source_title := extraction_title extractionResult;
                     extractedAt := now |} = Normal processingResult
             /\ processing_chunks processingResult = None)
  \/ (snd out = Throw (PlainError "TypeError"
                         "Cannot read properties of undefined (reading 'message')")
      /\ fst out = page_failed st [] []
      /\ (extract htmlContent
            {| extract_url := url; extract_fallback := false;
               extract_minContentLength := None |} = Throw Nullish
          \/ exists extractionResult,
               process (extraction_markdown extractionResult)
                 {| sourceUrl := url;
                    source_title := extraction_title extractionResult;
                    extractedAt := now |} = Throw Nullish)).
Proof.
  cbv zeta. unfold processPage, processPage_try. cbv zeta.
  destruct (extract htmlContent _) as [er | [e1 |]] eqn:Hextract.
  - destruct (extraction_success er); cbn [negb].
    + destruct (process _ _) as [pr | [e2 |]] eqn:Hprocess.
      * destruct (processing_success pr); cbn [negb].
        -- destruct (processing_chunks pr) as [chunks |] eqn:Hchunks.
           ++ left. eexists. cbn [fst snd]. split; [reflexivity |].
              cbn. rewrite Hchunks. repeat split.
           ++ right. right. left. cbn [read_message error_message fst snd].
              exists [{| CrawlingStats.message :=
                           "Cannot read properties of undefined (reading 'length')";
                         CrawlingStats.url := url; CrawlingStats.timestamp := now |}].
              split; [reflexivity |]. split; [reflexivity |].
              split; [reflexivity |]. eauto.
        -- right. left. eexists _, _. cbn [fst snd]. split; [reflexivity |].
           split; [| reflexivity]. reflexivity.
      * right. left. cbn [read_message]. eexists _, _. cbn [fst snd].
        split; [reflexivity |]. split; [| reflexivity]. reflexivity.
      * right. right. right. cbn [read_message fst snd]. eauto.
    + right. left. eexists _, _. cbn [fst snd]. split; [reflexivity |].
      split; [| reflexivity]. reflexivity.
  - right. left. cbn [read_message]. eexists _, _. cbn [fst snd].
    split; [reflexivity |]. split; [| reflexivity]. reflexivity.
  - right. right. right. cbn [read_message fst snd]. eauto.
Qed.

Lemma processPages_invariant (pages : list (string * string)) (now : string) :
  forall st : ProcessingStats,
  ps_successfulExtractions st = ps_totalPages st ->
  let st' := processPages extract process st pages now in
  ps_successfulExtractions st' = ps_totalPages st'
  /\ ps_totalPages st + ps_failedExtractions st + Z.of_nat (length pages)
     <= ps_totalPages st' + ps_failedExtractions st'
     <= ps_totalPages st + ps_failedExtractions st + 2 * Z.of_nat (length pages)
  /\ ((forall text info processingResult,
         process text info = Normal processingResult ->
         processing_chunks processingResult <> None) ->
      ps_totalPages st' + ps_failedExtractions st'
      = ps_totalPages st + ps_failedExtractions st + Z.of_nat (length pages))
  /\ ps_totalPages st <= ps_totalPages st'.
Proof.
  induction pages as [| [url html] pages IH]; intros st Hinv; cbv zeta.
  - cbn. repeat split; lia.
  - cbn [processPages length].
    destruct (processPage_cases st url html now)
      as [(page & _ & Hst & _)
         | [(errors & warnings & _ & _ & Hst)
           | [(errors & _ & _ & Hst & er & pr & _ & Hpr & Hnone) | (_ & Hst & _)]]];
      cbv zeta in Hst; rewrite Hst;
      match goal with
      | |- context [processPages extract process ?st1 pages now] =>
          destruct (IH st1 ltac:(cbn; lia)) as (H1 & H2 & H3 & H4)
      end; cbv zeta in *; cbn in *;
      (split; [exact H1 |]; split; [lia |]; split; [| lia]);
      intros Hchunks; specialize (H3 Hchunks); try lia.
    exfalso. exact (Hchunks _ _ _ Hpr Hnone).
Qed.
End PipelineFacts.

(** X26. [processPage] adds one to [totalPages] exactly when it adds one to
    [successfulExtractions], and it returns the page's result only for a
    page that it counted so and not as failed. When it returns null it has
    counted one failure with one error or warning entry; but the two
    counters of success are incremented before the chunks are read, so a
    processing result that reports success and has no [chunks] array is
    counted as a page, as a successful extraction and as a failed one, and
    yields null. [processPage] throws only when a collaborator threw [null]
    or [undefined], the failure being counted before. *)
Theorem processPage_counts
    (extract : string -> ExtractOptions -> Completion ExtractionResult)
    (process : option string -> SourceInfo -> Completion ProcessingResult)
    (st : ProcessingStats) (url htmlContent now : string) :
  let out := processPage extract process st url htmlContent now in
  let st' := fst out in
  ps_successfulExtractions st' - ps_successfulExtractions st
  = ps_totalPages st' - ps_totalPages st
  /\ match snd out with
     | Normal (Some page) =>
         ps_totalPages st' = ps_totalPages st + 1
         /\ ps_failedExtractions st' = ps_failedExtractions st
         /\ ps_errors st' = ps_errors st
         /\ ps_warnings st' = ps_warnings st
         /\ ps_totalChunks st' = ps_totalChunks st + page_chunkCount page
         /\ page_chunkCount page = Z.of_nat (length (page_chunks page))
         /\ processing_chunks (page_processingResult page) = Some (page_chunks page)
     | Normal None =>
         ps_failedExtractions st' = ps_failedExtractions st + 1
         /\ (length (ps_errors st') + length (ps_warnings st')
             = length (ps_errors st) + length (ps_warnings st) + 1)%nat
         /\ ps_totalChunks st' = ps_totalChunks st
         /\ (ps_totalPages st' = ps_totalPages st
             \/ ps_totalPages st' = ps_totalPages st + 1
                /\ exists extractionResult processingResult,
                     process (extraction_markdown extractionResult)
                       {| sourceUrl := url;
                          source_title := extraction_title extractionResult;
                          extractedAt := now |} = Normal processingResult
                     /\ processing_chunks processingResult = None)
     | Throw thrown =>
         thrown = PlainError "TypeError"
                    "Cannot read properties of undefined (reading 'message')"
         /\ ps_failedExtractions st' = ps_failedExtractions st + 1
         /\ ps_totalPages st' = ps_totalPages st
         /\ ps_errors st' = ps_errors st
         /\ ps_warnings st' = ps_warnings st
         /\ (extract htmlContent
               {| extract_url := url; extract_fallback := false;
                  extract_minContentLength := None |} = Throw Nullish
             \/ exists extractionResult,
                  process (extraction_markdown extractionResult)
                    {| sourceUrl := url;
                       source_title := extraction_title extractionResult;
                       extractedAt := now |} = Throw Nullish)
     end
  /\ (forall extractionResult processingResult,
        extract htmlContent
          {| extract_url := url; extract_fallback := false;
             extract_minContentLength := None |} = Normal extractionResult ->
        extraction_success extractionResult = true ->
        process (extraction_markdown extractionResult)
          {| sourceUrl := url;
             source_title := extraction_title extractionResult;
             extractedAt := now |} = Normal processingResult ->
        processing_success processingResult = true ->
        processing_chunks processingResult = None ->
        snd out = Normal None
        /\ ps_totalPages st' = ps_totalPages st + 1
        /\ ps_successfulExtractions st' = ps_successfulExtractions st + 1
        /\ ps_failedExtractions st' = ps_failedExtractions st + 1
        /\ ps_errors st'
           = (ps_errors st
              ++ [{| CrawlingStats.message :=
                       "Cannot read properties of undefined (reading 'length')";
                     CrawlingStats.url := url; CrawlingStats.timestamp := now |}])%list).
Proof.
  cbv zeta. split; [| split].
  - destruct (processPage_cases extract process st url htmlContent now)
      as [(page & _ & Hst & _)
         | [(errors & warnings & _ & _ & Hst)
           | [(errors & _ & _ & Hst & _) | (_ & Hst & _)]]];
      cbv zeta in Hst; rewrite Hst; cbn; lia.
  - destruct (processPage_cases extract process st url htmlContent now)
      as [(page & Hout & Hst & Hcount & Hchunks)
         | [(errors & warnings & Hout & Hlen & Hst)
           | [(errors & Hout & Hlen & Hst & er & pr & _ & Hpr & Hnone)
             | (Hout & Hst & Hnull)]]];
      cbv zeta in Hout, Hst; rewrite Hout, Hst; cbn.
    + repeat split; assumption.
    + rewrite !length_app. split; [reflexivity |]. split; [lia |].
      split; [reflexivity |]. left. reflexivity.
    + rewrite !length_app. cbn [length]. split; [reflexivity |]. split; [lia |].
      split; [reflexivity |]. right. split; [reflexivity |]. eauto.
    + split; [reflexivity |]. split; [reflexivity |]. split; [reflexivity |].
      split; [apply app_nil_r |]. split; [apply app_nil_r | exact Hnull].
  - intros er pr Hextract Hsuccess Hprocess Hpsuccess Hnone.
    unfold processPage, processPage_try.
    rewrite Hextract, Hsuccess. cbn [negb]. rewrite Hprocess, Hpsuccess. cbn [negb].
    rewrite Hnone. cbn. repeat split.
Qed.

Lemma processPage_counts_witness :
  let out := processPage plain_extractor chunkless_processor new_ProcessingStats
               "https://example.com/docs/intro" "<html><body><h1>Title</h1></body></html>"
               "2024-01-01T00:00:00.000Z" in
  snd out = Normal None
  /\ ps_totalPages (fst out) = 1
  /\ ps_successfulExtractions (fst out) = 1
  /\ ps_failedExtractions (fst out) = 1.
Proof.
  cbv zeta.
  destruct (processPage_counts plain_extractor chunkless_processor new_ProcessingStats
              "https://example.com/docs/intro" "<html><body><h1>Title</h1></body></html>"
              "2024-01-01T00:00:00.000Z") as (_ & _ & H).
  cbv zeta in H.
  destruct (H _ _ eq_refl eq_refl eq_refl eq_refl eq_refl) as (H1 & H2 & H3 & H4 & _).
  repeat split; assumption.
Defined.

(** X27. [totalPages] counts only the pages that came through, so over any
    run of [processPage] from the initial statistics it stays equal to
    [successfulExtractions], and the [successRate] of [getProcessingStats]
    is 100 as soon as one page was counted, however many failed, and 0
    before. Pages and failures together count every page at least once and
    at most twice, and exactly once when every processing result has a
    [chunks] array. *)
Theorem processing_successRate_all_or_nothing
    (extract : string -> ExtractOptions -> Completion ExtractionResult)
    (process : option string -> SourceInfo -> Completion ProcessingResult)
    (pages : list (string * string)) (now : string) :
  let st := processPages extract process new_ProcessingStats pages now in
  ps_successfulExtractions st = ps_totalPages st
  /\ Z.of_nat (length pages) <= ps_totalPages st + ps_failedExtractions st
     <= 2 * Z.of_nat (length pages)
  /\ ((forall text info processingResult,
         process text info = Normal processingResult ->
         processing_chunks processingResult <> None) ->
      ps_totalPages st + ps_failedExtractions st = Z.of_nat (length pages))
  /\ processing_successRate st = (if 0 <? ps_totalPages st then 100 else 0).
Proof.
  cbv zeta.
  destruct (processPages_invariant extract process pages now new_ProcessingStats eq_refl)
    as (Heq & Hsum & Hexact & Hp).
  cbv zeta in *. cbn in Hsum, Hexact, Hp.
  split; [exact Heq |]. split; [lia |]. split; [intros H; specialize (Hexact H); lia |].
  unfold processing_successRate. rewrite Heq.
  destruct (0 <? ps_totalPages _) eqn:Hpos; [| reflexivity].
  apply Z.ltb_lt in Hpos. apply percent_full. exact Hpos.
Qed.

Lemma processing_successRate_all_or_nothing_witness :
  let st := processPages plain_extractor one_chunk_processor new_ProcessingStats
              [("https://example.com/a", "<p>a</p>"); ("https://example.com/b", "")]
              "2024-01-01T00:00:00.000Z" in
  ps_totalPages st + ps_failedExtractions st = 2
  /\ processing_successRate st = (if 0 <? ps_totalPages st then 100 else 0).
Proof.
  cbv zeta.
  destruct (processing_successRate_all_or_nothing plain_extractor one_chunk_processor
              [("https://example.com/a", "<p>a</p>"); ("https://example.com/b", "")]
              "2024-01-01T00:00:00.000Z") as (_ & _ & Hexact & Hrate).
  cbv zeta in Hexact, Hrate. split; [| exact Hrate].
  apply Hexact. intros text info pr Hpr.
  unfold one_chunk_processor in Hpr.
  destruct text as [t |]; [| discriminate Hpr].
  destruct (Reference.is_empty t); injection Hpr as <-; discriminate.
Defined.
